(** * Contact-point provisioning service (EmbeddedContactPointService)

    A shallow embedding of the Go service that lists, creates, updates and
    deletes Grafana contact points inside the Alertmanager configuration
    document, together with the properties its specification states.  The
    service is the file of [package provisioning] that defines
    [EmbeddedContactPointService]; every definition below names the function
    or the loop of that file it stands for.

    - Go maps ([SecureSettings], provenances, the settings object) are
      [gmap]s; slices are lists updated by index.
    - The injected collaborators (alerting store, provenance store, secrets
      service, base64, JSON codec, channel schema) are type classes, one per
      Go interface, so every statement holds for any implementation.
    - Effects are explicit: a state-and-error monad over a [World] holding
      the two stores and the log.

    The pure parts of the [TagFilter] component are embedded in the module
    [TagFilter]. *)

From Stdlib Require Import ZArith String Ascii.
From stdpp Require Import base tactics option list strings gmap fin_maps countable.

Open Scope string_scope.
Open Scope list_scope.
Open Scope stdpp_scope.

(** ** Settings: a simplejson object *)

Module Json.

(** A value held by a settings object.  Nested arrays and objects are
    opaque to the service and kept as raw text. *)
Inductive value :=
| Null
| Bool (b : bool)
| Number (n : Z)
| Str (s : string)
| Raw (text : string).

(** [j.MustString()]: the string held, or the empty string for any other
    value and for a missing key. *)
Definition MustString (j : option value) : string :=
  match j with
  | Some (Str s) => s
  | _ => ""
  end.

(** [j.Get(key)] *)
Definition Get (key : string) (j : gmap string value) : option value := j !! key.

(** [j.Set(key, val)] with a string value. *)
Definition Set_ (key val : string) (j : gmap string value) : gmap string value :=
  <[key := Str val]> j.

(** [j.Del(key)] *)
Definition Del (key : string) (j : gmap string value) : gmap string value :=
  delete key j.

End Json.

Abbreviation Settings_t := (gmap string Json.value).

(** ** Data model *)

Module EmbeddedContactPoint.
Record t := mk {
  UID : string;
  Name : string;
  Type_ : string;
  Settings : Settings_t;
  DisableResolveMessage : bool;
  Provenance : string
}.

Definition empty : t := mk "" "" "" ∅ false "".

Definition with_UID (uid : string) (e : t) : t :=
  mk uid (Name e) (Type_ e) (Settings e) (DisableResolveMessage e) (Provenance e).
Definition with_Settings (s : Settings_t) (e : t) : t :=
  mk (UID e) (Name e) (Type_ e) s (DisableResolveMessage e) (Provenance e).
Definition with_Provenance (p : string) (e : t) : t :=
  mk (UID e) (Name e) (Type_ e) (Settings e) (DisableResolveMessage e) p.
End EmbeddedContactPoint.

Module PostableGrafanaReceiver.
Record t := mk {
  UID : string;
  Name : string;
  Type_ : string;
  DisableResolveMessage : bool;
  Settings : Settings_t;
  SecureSettings : gmap string string
}.
End PostableGrafanaReceiver.

Module PostableApiReceiver.
(** A receiver group.  [Passthrough] stands for the fields of
    [config.Receiver] other than the name, which the service never reads. *)
Record t := mk {
  Name : string;
  Passthrough : string;
  GrafanaManagedReceivers : list PostableGrafanaReceiver.t
}.

Definition with_GrafanaManagedReceivers
    (l : list PostableGrafanaReceiver.t) (g : t) : t :=
  mk (Name g) (Passthrough g) l.
End PostableApiReceiver.

Module PostableUserConfig.
(** The configuration document.  [Passthrough] stands for every part of the
    document except [AlertmanagerConfig.Receivers]. *)
Record t := mk {
  Passthrough : string;
  Receivers : list PostableApiReceiver.t
}.

Definition with_Receivers (l : list PostableApiReceiver.t) (c : t) : t :=
  mk (Passthrough c) l.
End PostableUserConfig.

Module CP := EmbeddedContactPoint.
Module GR := PostableGrafanaReceiver.
Module Group := PostableApiReceiver.
Module Cfg := PostableUserConfig.

(** [models.SaveAlertmanagerConfigurationCmd] *)
Record SaveAlertmanagerConfigurationCmd := {
  AlertmanagerConfiguration : string;
  FetchedConfigurationHash : string;
  ConfigurationVersion : string;
  Default : bool;
  OrgID : Z
}.

(** [query.Result] of [models.GetLatestAlertmanagerConfigurationQuery] *)
Record AlertConfiguration := {
  Result_AlertmanagerConfiguration : string;
  Result_ConfigurationHash : string
}.

(** ** Errors and results *)

Inductive ErrorKind :=
| NotFound
| ValidationError
| ConcurrentModification
| CryptoError
| StoreError.

(** A Go [error]: its kind in the taxonomy of the service and its message. *)
Record error := { kind : ErrorKind; message : string }.

Inductive result (A : Type) :=
| Ok (a : A)
| Err (e : error).
Arguments Ok {A} a.
Arguments Err {A} e.

#[global] Instance result_ret : MRet result := λ A a, Ok a.
#[global] Instance result_bind : MBind result :=
  λ A B f m, match m with Ok a => f a | Err e => Err e end.

(** [fmt.Errorf(prefix + "%w", err)] *)
Definition Wrapf (prefix : string) (e : error) : error :=
  {| kind := kind e; message := prefix +:+ message e |}.

Definition wrap {A} (prefix : string) (r : result A) : result A :=
  match r with Ok a => Ok a | Err e => Err (Wrapf prefix e) end.

(** [fmt.Errorf("contact point with uid '%s' not found", uid)] *)
Definition ErrUIDNotFound (uid : string) : error :=
  {| kind := NotFound;
     message := "contact point with uid '" +:+ uid +:+ "' not found" |}.

(** ** Log *)

Inductive LogLevel := Info | Warn.

Record LogRecord := {
  level : LogLevel;
  msg : string;
  ctx : list (string * gmap string string)
}.

(** ** The injected collaborators *)

(** [secrets.Service], restricted to what the service calls. *)
Class SecretsService := {
  Encrypt : list Byte.byte → result (list Byte.byte);
  Decrypt : list Byte.byte → result (list Byte.byte)
}.

(** [base64.StdEncoding] *)
Class Base64 := {
  EncodeToString : list Byte.byte → string;
  DecodeString : string → result (list Byte.byte)
}.

(** [json.Marshal] on the document and [DeserializeAlertmanagerConfig]. *)
Class ConfigCodec := {
  Marshal : PostableUserConfig.t → result string;
  DeserializeAlertmanagerConfig : string → result PostableUserConfig.t
}.

(** What the channel type decides: [IsValid] (already applied to the secrets
    service's [GetDecryptedValue]), the secret keys of a type, and the
    constant [apimodels.RedactedValue]. *)
Class ChannelSchema := {
  IsValid : EmbeddedContactPoint.t → result unit;
  SecretKeys : string → result (list string);
  RedactedValue : string
}.

(** [store.AlertingStore] over a store state [AM]. *)
Class AlertingStore (AM : Type) := {
  GetLatestAlertmanagerConfiguration : Z → AM → result AlertConfiguration;
  UpdateAlertmanagerConfiguration : SaveAlertmanagerConfigurationCmd → AM → result AM
}.

(** [ProvisioningStore] over a store state [PV]; the resource is the contact
    point, identified by its UID. *)
Class ProvisioningStore (PV : Type) := {
  GetProvenances : Z → string → PV → result (gmap string string);
  SetProvenance : Z → EmbeddedContactPoint.t → string → PV → result PV;
  DeleteProvenance : Z → EmbeddedContactPoint.t → PV → result PV
}.

(** ** The world and its monad *)

Record World (AM PV : Type) := mkWorld {
  am : AM;
  prov : PV;
  logs : list LogRecord
}.
Arguments mkWorld {AM PV} am prov logs.
Arguments am {AM PV} w.
Arguments prov {AM PV} w.
Arguments logs {AM PV} w.

Definition M (W A : Type) : Type := W → result A * W.

#[global] Instance M_ret {W} : MRet (M W) := λ A a w, (Ok a, w).
#[global] Instance M_bind {W} : MBind (M W) :=
  λ A B f m w, match m w with
               | (Ok a, w') => f a w'
               | (Err e, w') => (Err e, w')
               end.

Section Effects.
Context {AM PV : Type}.
Abbreviation W := (World AM PV).

(** A read of the alerting store. *)
Definition readAM {A} (f : AM → result A) : M W A :=
  λ w, (f (am w), w).

(** A read of the provenance store. *)
Definition readPV {A} (f : PV → result A) : M W A :=
  λ w, (f (prov w), w).

(** A write to the alerting store: on failure the store is as before. *)
Definition writeAM (f : AM → result AM) : M W unit :=
  λ w, match f (am w) with
       | Ok a' => (Ok (), mkWorld a' (prov w) (logs w))
       | Err e => (Err e, w)
       end.

(** A write to the provenance store. *)
Definition writePV (f : PV → result PV) : M W unit :=
  λ w, match f (prov w) with
       | Ok p' => (Ok (), mkWorld (am w) p' (logs w))
       | Err e => (Err e, w)
       end.

(** [ecp.log.Info(msg, key, val)] *)
Definition logInfo (m key : string) (val : gmap string string) : M W unit :=
  λ w, (Ok (), mkWorld (am w) (prov w)
                 (logs w ++ [{| level := Info; msg := m; ctx := [(key, val)] |}])).

(** Modelled from the spec: [TransactionManager.InTransaction], whose
    implementation is outside this package.  "Within one transaction ...
    if either half fails, the whole transaction rolls back": when the work
    returns an error both stores are as they were before it started. *)
Definition InTransaction {A} (work : M W A) : M W A :=
  λ w, match work w with
       | (Ok a, w') => (Ok a, w')
       | (Err e, w') => (Err e, mkWorld (am w) (prov w) (logs w'))
       end.
End Effects.

(** ** Helpers of the API model that live outside the service file *)

(** Modelled from the spec: [PostableUserConfig.GetGrafanaReceiverMap],
    defined with the API model and not in the service file.  List "iterates
    every receiver across every group": the receivers of every group, in
    document order. *)
Definition GetGrafanaReceiverMap (cfg : PostableUserConfig.t)
    : list PostableGrafanaReceiver.t :=
  PostableUserConfig.Receivers cfg ≫= PostableApiReceiver.GrafanaManagedReceivers.

Section Schema.
Context {schema : ChannelSchema}.

(** The secrets taken out of the settings: each secret key with the string
    the settings hold for it, read as the service itself reads a secret
    ([Get(key).MustString()]). *)
Definition extractedSecrets (secretKeys : list string) (settings : Settings_t)
    : gmap string string :=
  list_to_map ((λ k, (k, Json.MustString (Json.Get k settings))) <$> secretKeys).

(** The settings once the secret keys are removed. *)
Definition remainingSettings (secretKeys : list string) (settings : Settings_t)
    : Settings_t :=
  foldr Json.Del settings secretKeys.

(** Modelled from the spec: [EmbeddedContactPoint.ExtractSecrtes], defined
    with the API model and not in the service file.  "Given [Type],
    determines which [Settings] keys are secret per that type's schema,
    removes them from [Settings], and returns them keyed by name"; it fails
    when the schema lookup fails. *)
Definition ExtractSecrtes (e : EmbeddedContactPoint.t)
    : result (gmap string string * EmbeddedContactPoint.t) :=
  secretKeys ← SecretKeys (CP.Type_ e);
  Ok (extractedSecrets secretKeys (CP.Settings e),
      CP.with_Settings (remainingSettings secretKeys (CP.Settings e)) e).

End Schema.

(** ** The service *)

Section Service.
Context {AM PV : Type}.
Context {amStore : AlertingStore AM} {provenanceStore : ProvisioningStore PV}.
Context {encryptionService : SecretsService} {base64 : Base64}.
Context {codec : ConfigCodec} {schema : ChannelSchema}.
Abbreviation W' := (World AM PV).

(** [getCurrentConfig]: the document and the hash it was read at. *)
Definition getCurrentConfig (orgID : Z) (a : AM)
    : result (PostableUserConfig.t * string) :=
  r ← GetLatestAlertmanagerConfiguration orgID a;
  cfg ← DeserializeAlertmanagerConfig (Result_AlertmanagerConfiguration r);
  Ok (cfg, Result_ConfigurationHash r).

(** [decrypteValue] *)
Definition decrypteValue (value : string) : result string :=
  decodeValue ← DecodeString value;
  decryptedValue ← Decrypt decodeValue;
  Ok (string_of_list_byte decryptedValue).

(** [encryptValue] *)
Definition encryptValue (value : string) : result string :=
  match Encrypt (list_byte_of_string value) with
  | Err e => Err (Wrapf "failed to encrypt secure settings: " e)
  | Ok encryptedData => Ok (EncodeToString encryptedData)
  end.

(** The loop [for k, v := range extracedSecrets] of Create and Update: every
    value is replaced by its encryption, and the first failure is returned. *)
Definition encryptSecrets (extracedSecrets : gmap string string)
    : result (gmap string string) :=
  map_fold (λ k v acc,
      encrypted ← acc;
      encryptedValue ← encryptValue v;
      Ok (<[k := encryptedValue]> encrypted))
    (Ok ∅) extracedSecrets.

(** The loop over [SecureSettings] in [GetContactPoints]. *)
Definition redactSecureSettings (secure : gmap string string)
    (settings : Settings_t) : Settings_t :=
  map_fold (λ k v settings,
      match decrypteValue v with
      | Err _ => settings                      (* TODO(JP): log a warning *)
      | Ok decryptedValue =>
          if decide (decryptedValue = "") then settings
          else Json.Set_ k RedactedValue settings
      end)
    settings secure.

(** The body of the loop over receivers in [GetContactPoints]. *)
Definition redactedContactPoint (provenances : gmap string string)
    (contactPoint : PostableGrafanaReceiver.t) : EmbeddedContactPoint.t :=
  let embeddedContactPoint :=
    CP.mk (GR.UID contactPoint) (GR.Name contactPoint) (GR.Type_ contactPoint)
          (GR.Settings contactPoint) (GR.DisableResolveMessage contactPoint) "" in
  let embeddedContactPoint :=
    match provenances !! CP.UID embeddedContactPoint with
    | Some val =>
        if decide (val ≠ "") then CP.with_Provenance val embeddedContactPoint
        else embeddedContactPoint
    | None => embeddedContactPoint
    end in
  CP.with_Settings
    (redactSecureSettings (GR.SecureSettings contactPoint)
                          (CP.Settings embeddedContactPoint))
    embeddedContactPoint.

(** [GetContactPoints] *)
Definition GetContactPoints (orgID : Z) : M W' (list EmbeddedContactPoint.t) :=
  '(cfg, _) ← readAM (getCurrentConfig orgID);
  provenances ← readPV (GetProvenances orgID "contactpoint");
  _ ← logInfo "provenances" "map" provenances;
  mret (foldl (λ contactPoints contactPoint,
                 contactPoints ++ [redactedContactPoint provenances contactPoint])
              [] (GetGrafanaReceiverMap cfg)).

(** The loop over [SecureSettings] in [getContactPointUncrypted]. *)
Definition decryptSecureSettings (secure : gmap string string)
    (settings : Settings_t) : Settings_t :=
  map_fold (λ k v settings,
      match decrypteValue v with
      | Err _ => settings                      (* TODO(JP): log a warning *)
      | Ok decryptedValue =>
          if decide (decryptedValue = "") then settings
          else Json.Set_ k decryptedValue settings
      end)
    settings secure.

(** The body of the loop over receivers in [getContactPointUncrypted], for
    the receiver whose UID matches. *)
Definition uncryptedContactPoint (receiver : PostableGrafanaReceiver.t)
    : EmbeddedContactPoint.t :=
  CP.mk (GR.UID receiver) (GR.Name receiver) (GR.Type_ receiver)
        (decryptSecureSettings (GR.SecureSettings receiver) (GR.Settings receiver))
        (GR.DisableResolveMessage receiver) "".

(** The loop over receivers in [getContactPointUncrypted]: skip while the UID
    differs, return at the first match, fail when the loop runs out. *)
Fixpoint findUncrypted (uid : string) (receivers : list PostableGrafanaReceiver.t)
    : result EmbeddedContactPoint.t :=
  match receivers with
  | [] => Err (ErrUIDNotFound uid)
  | receiver :: rest =>
      if decide (GR.UID receiver ≠ uid) then findUncrypted uid rest
      else Ok (uncryptedContactPoint receiver)
  end.

(** [getContactPointUncrypted] (internal only) *)
Definition getContactPointUncrypted (orgID : Z) (uid : string) (a : AM)
    : result EmbeddedContactPoint.t :=
  '(cfg, _) ← getCurrentConfig orgID a;
  findUncrypted uid (GetGrafanaReceiverMap cfg).

(** [cmd] as every mutating operation builds it. *)
Definition saveCmd (data fetchedHash : string) (orgID : Z)
    : SaveAlertmanagerConfigurationCmd :=
  {| AlertmanagerConfiguration := data;
     FetchedConfigurationHash := fetchedHash;
     ConfigurationVersion := "v1";
     Default := false;
     OrgID := orgID |}.

(** The struct literal [&apimodels.PostableGrafanaReceiver{...}] of Create
    and Update. *)
Definition grafanaReceiverOf (contactPoint : EmbeddedContactPoint.t)
    (extracedSecrets : gmap string string) : PostableGrafanaReceiver.t :=
  GR.mk (CP.UID contactPoint) (CP.Name contactPoint) (CP.Type_ contactPoint)
        (CP.DisableResolveMessage contactPoint) (CP.Settings contactPoint)
        extracedSecrets.

(** *** Create *)

(** The loop over [cfg.AlertmanagerConfig.Receivers] in Create, carrying the
    groups already visited and the flag [receiverFound]. *)
Definition appendToMatching (grafanaReceiver : PostableGrafanaReceiver.t)
    (receivers : list PostableApiReceiver.t)
    : list PostableApiReceiver.t * bool :=
  foldl (λ '(visited, receiverFound) receiver,
      if decide (Group.Name receiver = GR.Name grafanaReceiver) then
        (visited ++ [Group.with_GrafanaManagedReceivers
                       (Group.GrafanaManagedReceivers receiver ++ [grafanaReceiver])
                       receiver], true)
      else (visited ++ [receiver], receiverFound))
    ([], false) receivers.

(** The document after Create has placed the new receiver. *)
Definition addGrafanaReceiver (grafanaReceiver : PostableGrafanaReceiver.t)
    (cfg : PostableUserConfig.t) : PostableUserConfig.t :=
  let '(receivers, receiverFound) :=
    appendToMatching grafanaReceiver (Cfg.Receivers cfg) in
  if receiverFound then Cfg.with_Receivers receivers cfg
  else
    Cfg.with_Receivers
      (receivers ++ [Group.mk (GR.Name grafanaReceiver) "" [grafanaReceiver]])
      cfg.

(** Create up to the transaction: everything it reads and computes.  [uid]
    is the value drawn by [util.GenerateShortUID()]. *)
Definition createPlan (orgID : Z) (contactPoint : EmbeddedContactPoint.t)
    (uid : string) (a : AM)
    : result (EmbeddedContactPoint.t * SaveAlertmanagerConfigurationCmd) :=
  _ ← wrap "contact point is not valid: " (IsValid contactPoint);
  '(cfg, fetchedHash) ← getCurrentConfig orgID a;
  '(extracedSecrets, contactPoint) ← ExtractSecrtes contactPoint;
  extracedSecrets ← encryptSecrets extracedSecrets;
  let contactPoint := CP.with_UID uid contactPoint in
  let grafanaReceiver := grafanaReceiverOf contactPoint extracedSecrets in
  data ← Marshal (addGrafanaReceiver grafanaReceiver cfg);
  Ok (contactPoint, saveCmd data fetchedHash orgID).

(** The function handed to [InTransaction] by Create. *)
Definition createCommit (orgID : Z) (contactPoint : EmbeddedContactPoint.t)
    (provenance : string) (cmd : SaveAlertmanagerConfigurationCmd)
    : M W' EmbeddedContactPoint.t :=
  _ ← writeAM (UpdateAlertmanagerConfiguration cmd);
  _ ← writePV (SetProvenance orgID contactPoint provenance);
  mret (CP.with_Provenance provenance contactPoint).

(** [CreateContactPoint] *)
Definition CreateContactPoint (orgID : Z) (contactPoint : EmbeddedContactPoint.t)
    (provenance : string) (uid : string) : M W' EmbeddedContactPoint.t :=
  '(contactPoint, cmd) ← readAM (createPlan orgID contactPoint uid);
  InTransaction (createCommit orgID contactPoint provenance cmd).

(** *** Update *)

(** The loop over [secretKeys] in Update: "set all redacted values with the
    latest known value from the store". *)
Definition mergeRedacted (secretKeys : list string)
    (rawContactPoint contactPoint : EmbeddedContactPoint.t)
    : EmbeddedContactPoint.t :=
  foldl (λ contactPoint secretKey,
      let secretValue :=
        Json.MustString (Json.Get secretKey (CP.Settings contactPoint)) in
      if decide (secretValue = RedactedValue) then
        CP.with_Settings
          (Json.Set_ secretKey
             (Json.MustString (Json.Get secretKey (CP.Settings rawContactPoint)))
             (CP.Settings contactPoint))
          contactPoint
      else contactPoint)
    contactPoint secretKeys.

(** Update up to [mergedReceiver]: merge, validate, extract, encrypt. *)
Definition mergedReceiver (orgID : Z) (contactPoint : EmbeddedContactPoint.t)
    (a : AM) : result PostableGrafanaReceiver.t :=
  rawContactPoint ← getContactPointUncrypted orgID (CP.UID contactPoint) a;
  secretKeys ← SecretKeys (CP.Type_ contactPoint);
  let contactPoint := mergeRedacted secretKeys rawContactPoint contactPoint in
  _ ← IsValid contactPoint;
  '(extracedSecrets, contactPoint) ← ExtractSecrtes contactPoint;
  extracedSecrets ← encryptSecrets extracedSecrets;
  Ok (grafanaReceiverOf contactPoint extracedSecrets).

(** The inner loop of Update, [for i, grafanaReceiver := range ...]: at the
    first member whose UID matches, [GrafanaManagedReceivers[i]] is
    overwritten and the loop breaks.  [None] is [receiverNotFound] still
    being true when the loop ends. *)
Fixpoint replaceMember (merged : PostableGrafanaReceiver.t) (i : nat)
    (rest all : list PostableGrafanaReceiver.t)
    : option (list PostableGrafanaReceiver.t) :=
  match rest with
  | [] => None
  | grafanaReceiver :: rest =>
      if decide (GR.UID grafanaReceiver = GR.UID merged)
      then Some (<[i := merged]> all)
      else replaceMember merged (S i) rest all
  end.

(** The outer loop of Update over the groups: only a group named as the
    contact point is searched, and a searched group without the member ends
    the operation with an error. *)
Fixpoint replaceInGroups (merged : PostableGrafanaReceiver.t) (name : string)
    (receivers : list PostableApiReceiver.t)
    : result (list PostableApiReceiver.t) :=
  match receivers with
  | [] => Ok []
  | receiver :: rest =>
      receiver ←
        (if decide (Group.Name receiver = name) then
           match replaceMember merged 0 (Group.GrafanaManagedReceivers receiver)
                               (Group.GrafanaManagedReceivers receiver) with
           | Some members => Ok (Group.with_GrafanaManagedReceivers members receiver)
           | None => Err (ErrUIDNotFound (GR.UID merged))
           end
         else Ok receiver);
      rest ← replaceInGroups merged name rest;
      Ok (receiver :: rest)
  end.

(** Update up to the save: everything it reads and computes. *)
Definition updatePlan (orgID : Z) (contactPoint : EmbeddedContactPoint.t)
    (a : AM) : result SaveAlertmanagerConfigurationCmd :=
  merged ← mergedReceiver orgID contactPoint a;
  '(cfg, fetchedHash) ← getCurrentConfig orgID a;
  receivers ← replaceInGroups merged (CP.Name contactPoint) (Cfg.Receivers cfg);
  data ← Marshal (Cfg.with_Receivers receivers cfg);
  Ok (saveCmd data fetchedHash orgID).

(** [UpdateContactPoint] *)
Definition UpdateContactPoint (orgID : Z) (contactPoint : EmbeddedContactPoint.t)
    : M W' unit :=
  cmd ← readAM (updatePlan orgID contactPoint);
  writeAM (UpdateAlertmanagerConfiguration cmd).

(** *** Delete *)

(** The inner loop of Delete: the first member whose UID matches is cut out
    with [append(l[:index], l[index+1:]...)] and the loop breaks. *)
Fixpoint removeMember (uid : string) (index : nat)
    (rest all : list PostableGrafanaReceiver.t)
    : list PostableGrafanaReceiver.t :=
  match rest with
  | [] => all
  | grafanaReceiver :: rest =>
      if decide (GR.UID grafanaReceiver = uid)
      then take index all ++ drop (S index) all
      else removeMember uid (S index) rest all
  end.

(** The outer loop of Delete: every group is searched. *)
Definition removeFromGroups (uid : string) (receivers : list PostableApiReceiver.t)
    : list PostableApiReceiver.t :=
  (λ receiver,
     Group.with_GrafanaManagedReceivers
       (removeMember uid 0 (Group.GrafanaManagedReceivers receiver)
                     (Group.GrafanaManagedReceivers receiver))
       receiver) <$> receivers.

(** Delete up to the transaction. *)
Definition deletePlan (orgID : Z) (uid : string) (a : AM)
    : result SaveAlertmanagerConfigurationCmd :=
  '(cfg, fetchedHash) ← getCurrentConfig orgID a;
  data ← Marshal (Cfg.with_Receivers (removeFromGroups uid (Cfg.Receivers cfg)) cfg);
  Ok (saveCmd data fetchedHash orgID).

(** The function handed to [InTransaction] by Delete. *)
Definition deleteCommit (orgID : Z) (uid : string)
    (cmd : SaveAlertmanagerConfigurationCmd) : M W' unit :=
  _ ← writePV (DeleteProvenance orgID (CP.with_UID uid CP.empty));
  writeAM (UpdateAlertmanagerConfiguration cmd).

(** [DeleteContactPoint] *)
Definition DeleteContactPoint (orgID : Z) (uid : string) : M W' unit :=
  cmd ← readAM (deletePlan orgID uid);
  InTransaction (deleteCommit orgID uid cmd).

End Service.

(** ** In-memory collaborators

    Stand-ins for the injected interfaces, as a test suite would provide
    them: they make the service executable on concrete documents. *)

#[global] Instance value_eq_dec : EqDecision Json.value.
Proof. solve_decision. Defined.

#[global] Instance value_countable : Countable Json.value.
Proof.
  refine (inj_countable'
    (λ v, match v with
          | Json.Null => inl ()
          | Json.Bool b => inr (inl b)
          | Json.Number n => inr (inr (inl n))
          | Json.Str s => inr (inr (inr (inl s)))
          | Json.Raw s => inr (inr (inr (inr s)))
          end)
    (λ x, match x with
          | inl () => Json.Null
          | inr (inl b) => Json.Bool b
          | inr (inr (inl n)) => Json.Number n
          | inr (inr (inr (inl s))) => Json.Str s
          | inr (inr (inr (inr s))) => Json.Raw s
          end) _).
  intros []; reflexivity.
Defined.

#[global] Instance receiver_eq_dec : EqDecision PostableGrafanaReceiver.t.
Proof. solve_decision. Defined.

#[global] Instance receiver_countable : Countable PostableGrafanaReceiver.t.
Proof.
  refine (inj_countable'
    (λ r, (GR.UID r, GR.Name r, GR.Type_ r, GR.DisableResolveMessage r,
           GR.Settings r, GR.SecureSettings r))
    (λ '(u, n, t, d, s, ss), GR.mk u n t d s ss) _).
  intros []; reflexivity.
Defined.

#[global] Instance group_eq_dec : EqDecision PostableApiReceiver.t.
Proof. solve_decision. Defined.

#[global] Instance group_countable : Countable PostableApiReceiver.t.
Proof.
  refine (inj_countable'
    (λ g, (Group.Name g, Group.Passthrough g, Group.GrafanaManagedReceivers g))
    (λ '(n, p, l), Group.mk n p l) _).
  intros []; reflexivity.
Defined.

#[global] Instance config_eq_dec : EqDecision PostableUserConfig.t.
Proof. solve_decision. Defined.

#[global] Instance config_countable : Countable PostableUserConfig.t.
Proof.
  refine (inj_countable'
    (λ c, (Cfg.Passthrough c, Cfg.Receivers c))
    (λ '(p, l), Cfg.mk p l) _).
  intros []; reflexivity.
Defined.

Module InMemory.

(** *** Codec: the document as the binary digits of its code *)

Fixpoint digits (p : positive) : string :=
  match p with
  | xH => ""
  | xO p => String "0" (digits p)
  | xI p => String "1" (digits p)
  end.

Fixpoint undigits (s : string) : option positive :=
  match s with
  | "" => Some xH
  | String c s =>
      if decide (c = "0"%char) then xO <$> undigits s
      else if decide (c = "1"%char) then xI <$> undigits s
      else None
  end.

Definition codec : ConfigCodec :=
  {| Marshal cfg := Ok (digits (encode cfg));
     DeserializeAlertmanagerConfig data :=
       match undigits data ≫= decode with
       | Some cfg => Ok cfg
       | None => Err {| kind := ValidationError;
                        message := "could not load Alertmanager configuration" |}
       end |}.

(** *** Secrets: a reversible scrambling with an integrity mark *)

Definition mark : Byte.byte := Byte.x2a.

Definition secrets : SecretsService :=
  {| Encrypt payload := Ok (rev payload ++ [mark]);
     Decrypt payload :=
       match rev payload with
       | m :: p => if Byte.eqb m mark then Ok p
                   else Err {| kind := CryptoError; message := "unable to decrypt" |}
       | [] => Err {| kind := CryptoError; message := "unable to decrypt" |}
       end |}.

(** *** Encoding: the bytes themselves, read as a string *)

Definition encoding : Base64 :=
  {| EncodeToString := string_of_list_byte;
     DecodeString s := Ok (list_byte_of_string s) |}.

(** *** Channel schema: three channel types *)

Definition schema : ChannelSchema :=
  {| IsValid e :=
       if decide (CP.Type_ e = "") then
         Err {| kind := ValidationError;
                message := "type should not be an empty string" |}
       else Ok ();
     SecretKeys type :=
       if decide (type = "email") then Ok []
       else if decide (type = "webhook") then Ok ["password"]
       else if decide (type = "slack") then Ok ["token"; "url"]
       else Err {| kind := ValidationError;
                   message := "no secrets configured for type '" +:+ type +:+ "'" |};
     RedactedValue := "[REDACTED]" |}.

(** *** Alerting store *)

(** The content hash the store computes. *)
Class ContentHash := contentHash : string → string.

Section AlertingStore.
Context {hash : ContentHash}.

(** Modelled from the spec: the alerting store, whose implementation is
    outside this package.  [LoadCurrent] "fetches the latest persisted
    configuration for the organization" with "its content hash" and "fails
    with NotFound if none exists"; [SaveIfUnchanged] "commits it only if the
    store's current hash still equals expectedHash; fails with
    ConcurrentModification otherwise".  The state maps an organization to
    its document. *)
Definition alerting : AlertingStore (gmap Z string) :=
  {| GetLatestAlertmanagerConfiguration orgID s :=
       match s !! orgID with
       | Some data =>
           Ok {| Result_AlertmanagerConfiguration := data;
                 Result_ConfigurationHash := contentHash data |}
       | None => Err {| kind := NotFound;
                        message := "could not find an Alertmanager configuration" |}
       end;
     UpdateAlertmanagerConfiguration cmd s :=
       match s !! OrgID cmd with
       | Some data =>
           if decide (contentHash data = FetchedConfigurationHash cmd)
           then Ok (<[OrgID cmd := AlertmanagerConfiguration cmd]> s)
           else Err {| kind := ConcurrentModification;
                       message := "the configuration changed since it was read" |}
       | None => Err {| kind := ConcurrentModification;
                        message := "the configuration changed since it was read" |}
       end |}.

End AlertingStore.

(** *** Provenance store *)

(** Modelled from the spec: the provenance store, whose implementation is
    outside this package.  Records are "keyed by (org, resource-kind, UID)";
    [SetProvenance] is an upsert and [DeleteProvenance] is idempotent.  The
    state maps (org, kind) to the provenance of each UID. *)
Definition provenance : ProvisioningStore (gmap (Z * string) (gmap string string)) :=
  {| GetProvenances orgID kind s := Ok (default ∅ (s !! (orgID, kind)));
     SetProvenance orgID e tag s :=
       Ok (<[(orgID, "contactpoint") :=
               <[CP.UID e := tag]> (default ∅ (s !! (orgID, "contactpoint")))]> s);
     DeleteProvenance orgID e s :=
       Ok (<[(orgID, "contactpoint") :=
               delete (CP.UID e) (default ∅ (s !! (orgID, "contactpoint")))]> s) |}.

(** A provenance store whose writes fail, for fault injection. *)
Definition brokenProvenance
    : ProvisioningStore (gmap (Z * string) (gmap string string)) :=
  {| GetProvenances orgID kind s := Ok (default ∅ (s !! (orgID, kind)));
     SetProvenance orgID e tag s :=
       Err {| kind := StoreError; message := "provenance store unavailable" |};
     DeleteProvenance orgID e s :=
       Err {| kind := StoreError; message := "provenance store unavailable" |} |}.

End InMemory.

(** ** Statements about single receivers

    The relations below say what one returned contact point is, given the
    stored receiver it was built from. *)

Section Views.
Context {encryptionService : SecretsService} {base64 : Base64}.
Context {schema : ChannelSchema}.

(** A stored ciphertext is populated when it decrypts, without error, to a
    non-empty value. *)
Definition populated (ciphertext : string) : bool :=
  match decrypteValue ciphertext with
  | Ok decryptedValue => bool_decide (decryptedValue ≠ "")
  | Err _ => false
  end.

(** The settings of a listed contact point: a key of [SecureSettings] holds
    the sentinel when its ciphertext is populated and is as stored
    otherwise; every other key is as stored. *)
Definition redacted_settings (receiver : PostableGrafanaReceiver.t)
    (settings : Settings_t) : Prop :=
  ∀ k,
    settings !! k =
      match GR.SecureSettings receiver !! k with
      | Some v => if populated v then Some (Json.Str RedactedValue)
                  else GR.Settings receiver !! k
      | None => GR.Settings receiver !! k
      end.

(** The settings returned by the unredacted accessor: a key of
    [SecureSettings] holds the decrypted plaintext when its ciphertext is
    populated and is as stored otherwise; every other key is as stored. *)
Definition uncrypted_settings (receiver : PostableGrafanaReceiver.t)
    (settings : Settings_t) : Prop :=
  ∀ k,
    settings !! k =
      match GR.SecureSettings receiver !! k with
      | Some v =>
          match decrypteValue v with
          | Ok decryptedValue =>
              if decide (decryptedValue = "") then GR.Settings receiver !! k
              else Some (Json.Str decryptedValue)
          | Err _ => GR.Settings receiver !! k
          end
      | None => GR.Settings receiver !! k
      end.

End Views.

(** ** What the collaborators promise *)

(** Decryption undoes encryption, and decoding undoes encoding. *)
Class SecretsLaws {encryptionService : SecretsService} {base64 : Base64} : Prop := {
  Decrypt_Encrypt : ∀ payload encrypted,
    Encrypt payload = Ok encrypted → Decrypt encrypted = Ok payload;
  DecodeString_EncodeToString : ∀ data,
    DecodeString (EncodeToString data) = Ok data
}.

(** A marshalled document deserializes to itself. *)
Class CodecLaws {codec : ConfigCodec} : Prop := {
  Deserialize_Marshal : ∀ cfg data,
    Marshal cfg = Ok data → DeserializeAlertmanagerConfig data = Ok cfg
}.

(** The latest configuration of an organization is the one saved last. *)
Class StoreLaws {AM : Type} {amStore : AlertingStore AM} : Prop := {
  GetLatest_Update : ∀ cmd a a',
    UpdateAlertmanagerConfiguration cmd a = Ok a' →
    ∃ hash, GetLatestAlertmanagerConfiguration (OrgID cmd) a' =
            Ok {| Result_AlertmanagerConfiguration := AlertmanagerConfiguration cmd;
                  Result_ConfigurationHash := hash |}
}.

(** ** Statements about documents *)

(** Create on one group: a group named as the receiver gains it as its last
    member; any other group is as before. *)
Definition appended (grafanaReceiver : PostableGrafanaReceiver.t)
    (receiver : PostableApiReceiver.t) : PostableApiReceiver.t :=
  if decide (Group.Name receiver = GR.Name grafanaReceiver) then
    Group.mk (Group.Name receiver) (Group.Passthrough receiver)
             (Group.GrafanaManagedReceivers receiver ++ [grafanaReceiver])
  else receiver.

(** Update on one group.  A group not named [name] is as before.  A group
    named [name] keeps its name and its length, and the first member with
    the UID of [merged], at position [i], is replaced by [merged]; every
    other position is as before. *)
Definition updated_group (merged : PostableGrafanaReceiver.t) (name : string)
    (before after : PostableApiReceiver.t) : Prop :=
  if decide (Group.Name before = name) then
    Group.Name after = Group.Name before ∧
    Group.Passthrough after = Group.Passthrough before ∧
    ∃ i old,
      Group.GrafanaManagedReceivers before !! i = Some old ∧
      GR.UID old = GR.UID merged ∧
      (∀ j other, j < i → Group.GrafanaManagedReceivers before !! j = Some other →
                  GR.UID other ≠ GR.UID merged) ∧
      Group.GrafanaManagedReceivers after =
        <[i := merged]> (Group.GrafanaManagedReceivers before)
  else after = before.

(** ** Mutations as two phases

    Every mutating operation first reads and computes (its plan, ending in
    the command it will save) and then commits.  Splitting the phases lets
    two writers be interleaved: both plan, then both commit. *)

Inductive Mutation :=
| Create (contactPoint : EmbeddedContactPoint.t) (provenance uid : string)
| Update (contactPoint : EmbeddedContactPoint.t)
| Delete (uid : string).

Section Phases.
Context {AM PV : Type}.
Context {amStore : AlertingStore AM} {provenanceStore : ProvisioningStore PV}.
Context {encryptionService : SecretsService} {base64 : Base64}.
Context {codec : ConfigCodec} {schema : ChannelSchema}.

(** The command a mutation will save and what it does to commit it. *)
Definition prepare (orgID : Z) (m : Mutation) (a : AM)
    : result (SaveAlertmanagerConfigurationCmd * M (World AM PV) unit) :=
  match m with
  | Create contactPoint provenance uid =>
      '(contactPoint, cmd) ← createPlan orgID contactPoint uid a;
      Ok (cmd, _ ← InTransaction (createCommit orgID contactPoint provenance cmd);
               mret ())
  | Update contactPoint =>
      cmd ← updatePlan orgID contactPoint a;
      Ok (cmd, writeAM (UpdateAlertmanagerConfiguration cmd))
  | Delete uid =>
      cmd ← deletePlan orgID uid a;
      Ok (cmd, InTransaction (deleteCommit orgID uid cmd))
  end.

(** The operation a mutation stands for, with its answer dropped. *)
Definition run (orgID : Z) (m : Mutation) : M (World AM PV) unit :=
  match m with
  | Create contactPoint provenance uid =>
      _ ← CreateContactPoint orgID contactPoint provenance uid; mret ()
  | Update contactPoint => UpdateContactPoint orgID contactPoint
  | Delete uid => DeleteContactPoint orgID uid
  end.

End Phases.

(** Delete on one group: the group keeps its name; when no member carries
    the UID its members are as before, and otherwise the first member
    carrying it is cut out and every other member stays, in order. *)
Definition deleted_group (uid : string)
    (before after : PostableApiReceiver.t) : Prop :=
  Group.Name after = Group.Name before ∧
  Group.Passthrough after = Group.Passthrough before ∧
  ((Forall (λ r, GR.UID r ≠ uid) (Group.GrafanaManagedReceivers before) ∧
    Group.GrafanaManagedReceivers after = Group.GrafanaManagedReceivers before) ∨
   (∃ l1 r l2,
      Group.GrafanaManagedReceivers before = l1 ++ r :: l2 ∧
      Forall (λ r, GR.UID r ≠ uid) l1 ∧
      GR.UID r = uid ∧
      Group.GrafanaManagedReceivers after = l1 ++ l2)).

(** The members of every group carry distinct UIDs. *)
Definition distinct_UIDs (receivers : list PostableApiReceiver.t) : Prop :=
  Forall (λ g, NoDup (GR.UID <$> Group.GrafanaManagedReceivers g)) receivers.

(** ** The tag filter

    The pure parts of the [TagFilter] component of the dashboard search:
    the options built from the selected tags and from the loaded tag
    counts, and the handler of a change of selection. *)

Module TagFilter.

(** [interface TermCount]. *)
Record TermCount := mkTermCount { term : string; termCount : Z }.

(** [interface TagSelectOption]. *)
Record TagSelectOption := mkOption { value : string; label : string; count : Z }.

(** [const currentlySelectedTags = tags.map(...)]: the initial options. *)
Definition currentlySelectedTags (tags : list string) : list TagSelectOption :=
  (λ tag, mkOption tag tag 0) <$> tags.

(** [onLoadOptions], on the list [tagOptions()] resolved to: the count of a
    term is dropped when the term is among the selected tags. *)
Definition onLoadOptions (tags : list string) (options : list TermCount)
    : list TagSelectOption :=
  (λ option,
     if decide (term option ∈ tags)
     then mkOption (term option) (term option) 0
     else mkOption (term option) (term option) (termCount option)) <$> options.

(** What a call of [onTagChange] does: it throws, or it hands [onChange]
    a list of tags, having written to the options it was given. *)
Inductive outcome :=
| Threw (error : string)
| Changed (tags : list string) (newTags : list TagSelectOption).

(** [tag.count = 0]. *)
Definition uncounted (tag : TagSelectOption) : TagSelectOption :=
  mkOption (value tag) (label tag) 0.

(** [onTagChange]: [newTags] is [None] for [null].  The loop
    [newTags.forEach] comes first and dereferences [newTags]; the guard
    [newTags || []] is on the line after it. *)
Definition onTagChange (newTags : option (list TagSelectOption)) : outcome :=
  match newTags with
  | None => Threw "TypeError"
  | Some newTags =>
      let newTags := uncounted <$> newTags in
      Changed (value <$> newTags) newTags
  end.

End TagFilter.

(** ** A concrete organization *)

Module Scenario.
#[local] Existing Instance InMemory.codec.
#[local] Existing Instance InMemory.secrets.
#[local] Existing Instance InMemory.encoding.
#[local] Existing Instance InMemory.schema.
#[local] Existing Instance InMemory.provenance.

(** The content hash of this store: the content itself. *)
Definition plainHash : InMemory.ContentHash := λ data, data.

#[local] Existing Instance plainHash.
#[local] Existing Instance InMemory.alerting.

Abbreviation world := (World (gmap Z string) (gmap (Z * string) (gmap string string))).

Definition ciphertext (plaintext : string) : string :=
  match encryptValue plaintext with Ok c => c | Err _ => "" end.

(** A webhook whose password is stored encrypted. *)
Definition pager : PostableGrafanaReceiver.t :=
  GR.mk "u1" "ops" "webhook" false
        {[ "url" := Json.Str "http://pager" ]}
        {[ "password" := ciphertext "s3cr3t" ]}.

(** A webhook whose stored password does not decrypt. *)
Definition corrupt : PostableGrafanaReceiver.t :=
  GR.mk "u2" "ops" "webhook" false
        {[ "url" := Json.Str "http://chat" ]}
        {[ "password" := "garbage" ]}.

Definition document : PostableUserConfig.t :=
  Cfg.mk "route" [Group.mk "ops" "" [pager; corrupt]].

Definition stored (cfg : PostableUserConfig.t) : string :=
  match Marshal cfg with Ok data => data | Err _ => "" end.

Definition org1 : world :=
  mkWorld {[ 1%Z := stored document ]} {[ (1%Z, "contactpoint") := {[ "u1" := "api" ]} ]} [].

(** What listing [org1] returns, and the world it leaves. *)
Definition listed : list EmbeddedContactPoint.t :=
  [ CP.mk "u1" "ops" "webhook"
          {[ "url" := Json.Str "http://pager"; "password" := Json.Str "[REDACTED]" ]}
          false "api";
    CP.mk "u2" "ops" "webhook" {[ "url" := Json.Str "http://chat" ]} false "" ].

Definition org1_listed : world :=
  mkWorld (am org1) (prov org1)
          [ {| level := Info; msg := "provenances";
               ctx := [("map", {[ "u1" := "api" ]})] |} ].

(** A Slack contact point submitted to Create, with its token in clear. *)
Definition newcomer : EmbeddedContactPoint.t :=
  CP.mk "" "dev" "slack"
        {[ "token" := Json.Str "xoxb"; "recipient" := Json.Str "#dev" ]} false "".

(** Create [newcomer] in [org1], drawing the UID [u9]. *)
Definition newcomer_created : EmbeddedContactPoint.t :=
  CP.mk "u9" "dev" "slack" {[ "recipient" := Json.Str "#dev" ]} false "api".

Definition document_created : PostableUserConfig.t :=
  Cfg.mk "route"
    [ Group.mk "ops" "" [pager; corrupt];
      Group.mk "dev" ""
        [ GR.mk "u9" "dev" "slack" false {[ "recipient" := Json.Str "#dev" ]}
                {[ "token" := ciphertext "xoxb"; "url" := ciphertext "" ]} ] ].

Definition org1_created : world :=
  mkWorld {[ 1%Z := stored document_created ]}
          {[ (1%Z, "contactpoint") := {[ "u1" := "api"; "u9" := "api" ]} ]} [].

(** An update of [pager] that changes its URL and sends its password back
    as the sentinel. *)
Definition edit : EmbeddedContactPoint.t :=
  CP.mk "u1" "ops" "webhook"
        {[ "url" := Json.Str "http://pager2"; "password" := Json.Str "[REDACTED]" ]}
        false "".

Definition document_edited : PostableUserConfig.t :=
  Cfg.mk "route"
    [ Group.mk "ops" ""
        [ GR.mk "u1" "ops" "webhook" false {[ "url" := Json.Str "http://pager2" ]}
                {[ "password" := ciphertext "s3cr3t" ]};
          corrupt ] ].

Definition org1_edited : world :=
  mkWorld {[ 1%Z := stored document_edited ]} (prov org1) [].

(** An update of [pager] under a name that no group has. *)
Definition renamed : EmbeddedContactPoint.t :=
  CP.mk "u1" "oncall" "webhook"
        {[ "url" := Json.Str "http://pager2"; "password" := Json.Str "[REDACTED]" ]}
        false "".

(** An update of the created contact point under the name of a group that
    does not hold it. *)
Definition stranger : EmbeddedContactPoint.t :=
  CP.mk "u9" "ops" "slack" {[ "recipient" := Json.Str "#ops" ]} false "".

(** The same organization over a provenance store whose writes fail. *)
Definition createWithBrokenProvenance :=
  CreateContactPoint (provenanceStore := InMemory.brokenProvenance)
                     1 newcomer "api" "u9" org1.

(** The commands the two plans of a race build when both read [org1]: one
    writer creates [newcomer], the other submits [edit]. *)
Definition createCmd : SaveAlertmanagerConfigurationCmd :=
  saveCmd (stored document_created) (stored document) 1.

Definition editCmd : SaveAlertmanagerConfigurationCmd :=
  saveCmd (stored document_edited) (stored document) 1.

(** The command of a Delete that removes nothing from [org1]. *)
Definition idleCmd : SaveAlertmanagerConfigurationCmd :=
  saveCmd (stored document) (stored document) 1.

(** [org1] after deleting [pager]. *)
Definition document_deleted : PostableUserConfig.t :=
  Cfg.mk "route" [Group.mk "ops" "" [corrupt]].

Definition org1_deleted : world :=
  mkWorld {[ 1%Z := stored document_deleted ]} {[ (1%Z, "contactpoint") := ∅ ]} [].

(** [pager] as the accessor returns it, its password in clear. *)
Definition pager_uncrypted : EmbeddedContactPoint.t :=
  CP.mk "u1" "ops" "webhook"
        {[ "url" := Json.Str "http://pager"; "password" := Json.Str "s3cr3t" ]}
        false "".

End Scenario.

(** * Properties *)

(** ** Reasoning about results *)

Lemma bind_Ok {A B} (m : result A) (f : A → result B) (b : B) :
  m ≫= f = Ok b ↔ ∃ a, m = Ok a ∧ f a = Ok b.
Proof.
  destruct m as [a|e]; simpl; split.
  - intros Hf. exists a. auto.
  - intros (a' & Ha & Hf). congruence.
  - discriminate.
  - intros (a' & Ha & _). discriminate.
Qed.

Lemma bind_Err {A B} (m : result A) (f : A → result B) (e : error) :
  m ≫= f = Err e ↔ m = Err e ∨ ∃ a, m = Ok a ∧ f a = Err e.
Proof.
  destruct m as [a|e']; simpl; split.
  - intros Hf. right. exists a. auto.
  - intros [Hm | (a' & Ha & Hf)]; congruence.
  - intros Hf. left. congruence.
  - intros [Hm | (a' & Ha & _)]; congruence.
Qed.

Lemma foldl_snoc_map {A B} (f : A → B) (l : list A) (acc : list B) :
  foldl (λ acc x, acc ++ [f x]) acc l = acc ++ (f <$> l).
Proof.
  revert acc. induction l as [|x l IH]; intros acc; simpl.
  - by rewrite app_nil_r.
  - rewrite IH. by rewrite <- app_assoc.
Qed.

(** ** The loops over [SecureSettings] *)

Section SecureSettingsLoops.
Context {encryptionService : SecretsService} {base64 : Base64}.
Context {schema : ChannelSchema}.

(** Both read loops have this shape; [val] is what they write. *)
Lemma overlay_lookup (val : string → string) (secure : gmap string string)
    (settings : Settings_t) (k : string) :
  map_fold (λ k v settings,
      match decrypteValue v with
      | Err _ => settings
      | Ok decryptedValue =>
          if decide (decryptedValue = "") then settings
          else Json.Set_ k (val decryptedValue) settings
      end) settings secure !! k =
  match secure !! k with
  | Some v =>
      match decrypteValue v with
      | Ok decryptedValue =>
          if decide (decryptedValue = "") then settings !! k
          else Some (Json.Str (val decryptedValue))
      | Err _ => settings !! k
      end
  | None => settings !! k
  end.
Proof.
  revert k.
  apply (map_fold_weak_ind (λ (r : Settings_t) (m : gmap string string),
    ∀ k, r !! k =
      match m !! k with
      | Some v =>
          match decrypteValue v with
          | Ok decryptedValue =>
              if decide (decryptedValue = "") then settings !! k
              else Some (Json.Str (val decryptedValue))
          | Err _ => settings !! k
          end
      | None => settings !! k
      end)).
  - intros k. by rewrite lookup_empty.
  - intros i x m r Hi IH k. destruct (decide (i = k)) as [->|Hne].
    + rewrite lookup_insert_eq. specialize (IH k). rewrite Hi in IH.
      destruct (decrypteValue x) as [d|e]; [|done].
      destruct (decide (d = "")); [done|].
      unfold Json.Set_. by rewrite lookup_insert_eq.
    + rewrite lookup_insert_ne by done. rewrite <- IH.
      destruct (decrypteValue x) as [d|e]; [|done].
      destruct (decide (d = "")); [done|].
      unfold Json.Set_. by rewrite lookup_insert_ne.
Qed.

Lemma redactSecureSettings_spec (receiver : PostableGrafanaReceiver.t) :
  redacted_settings receiver
    (redactSecureSettings (GR.SecureSettings receiver) (GR.Settings receiver)).
Proof.
  intros k. unfold redactSecureSettings.
  rewrite (overlay_lookup (λ _, RedactedValue)).
  destruct (GR.SecureSettings receiver !! k) as [v|]; [|done].
  unfold populated. destruct (decrypteValue v) as [d|e]; [|done].
  destruct (decide (d = "")) as [->|Hd].
  - by rewrite bool_decide_eq_false_2 by (intros Hn; by apply Hn).
  - by rewrite bool_decide_eq_true_2.
Qed.

Lemma decryptSecureSettings_spec (receiver : PostableGrafanaReceiver.t) :
  uncrypted_settings receiver
    (decryptSecureSettings (GR.SecureSettings receiver) (GR.Settings receiver)).
Proof.
  intros k. unfold decryptSecureSettings. by rewrite (overlay_lookup id).
Qed.

End SecureSettingsLoops.

(** The listing loop reads the secrets service only through [populated]. *)
Lemma redactSecureSettings_populated_only (S1 S2 : SecretsService)
    {base64 : Base64} {schema : ChannelSchema}
    (secure : gmap string string) (settings : Settings_t) :
  (∀ v, populated (encryptionService := S1) v = populated (encryptionService := S2) v) →
  redactSecureSettings (encryptionService := S1) secure settings =
  redactSecureSettings (encryptionService := S2) secure settings.
Proof.
  intros Hsame. apply map_eq. intros k. unfold redactSecureSettings.
  rewrite !(overlay_lookup (λ _, RedactedValue)).
  destruct (secure !! k) as [v|]; [|done].
  specialize (Hsame v). unfold populated in Hsame.
  destruct (decrypteValue (encryptionService := S1) v) as [d1|e1],
           (decrypteValue (encryptionService := S2) v) as [d2|e2];
    repeat case_decide; try done;
    repeat (first [ rewrite bool_decide_eq_true_2 in Hsame by done
                  | rewrite bool_decide_eq_false_2 in Hsame by (intros Hn; by apply Hn) ]);
    done.
Qed.

(** ** List *)

Section Listing.
Context {AM PV : Type}.
Context {amStore : AlertingStore AM} {provenanceStore : ProvisioningStore PV}.
Context {encryptionService : SecretsService} {base64 : Base64}.
Context {codec : ConfigCodec} {schema : ChannelSchema}.

(** What a run of [GetContactPoints] amounts to. *)
Lemma GetContactPoints_run (orgID : Z) (w : World AM PV) :
  GetContactPoints orgID w =
  match getCurrentConfig orgID (am w) with
  | Err e => (Err e, w)
  | Ok (cfg, _) =>
      match GetProvenances orgID "contactpoint" (prov w) with
      | Err e => (Err e, w)
      | Ok provenances =>
          (Ok (redactedContactPoint provenances <$> GetGrafanaReceiverMap cfg),
           mkWorld (am w) (prov w)
             (logs w ++ [{| level := Info; msg := "provenances";
                            ctx := [("map", provenances)] |}]))
      end
  end.
Proof.
  unfold GetContactPoints, mbind, M_bind, readAM, readPV, logInfo, mret, M_ret.
  destruct (getCurrentConfig orgID (am w)) as [[cfg hash]|e]; [|done].
  destruct (GetProvenances orgID "contactpoint" (prov w)) as [provenances|e]; [|done].
  by rewrite foldl_snoc_map.
Qed.

Lemma redactedContactPoint_spec (provenances : gmap string string)
    (receiver : PostableGrafanaReceiver.t) :
  CP.UID (redactedContactPoint provenances receiver) = GR.UID receiver ∧
  redacted_settings receiver (CP.Settings (redactedContactPoint provenances receiver)).
Proof.
  unfold redactedContactPoint. simpl.
  destruct (provenances !! GR.UID receiver) as [val|]; [case_decide|];
    (split; [done|apply redactSecureSettings_spec]).
Qed.

End Listing.

Section ListingClaims.
Context {AM PV : Type}.
Context {amStore : AlertingStore AM} {provenanceStore : ProvisioningStore PV}.
Context {encryptionService : SecretsService} {base64 : Base64}.
Context {codec : ConfigCodec} {schema : ChannelSchema}.

(** C1. Every contact point returned by List comes from a stored receiver,
    and for every key of that receiver's [SecureSettings] the returned
    settings hold the sentinel [RedactedValue] when the ciphertext decrypts
    to a non-empty value and are as stored when it decrypts to nothing or
    does not decrypt.  The plaintext is not part of the answer: the answer
    is the same under any secrets service that agrees on which ciphertexts
    are populated. *)
Theorem GetContactPoints_redacts_secrets (orgID : Z) (w w' : World AM PV)
    (contactPoints : list EmbeddedContactPoint.t) :
  GetContactPoints orgID w = (Ok contactPoints, w') →
  (∃ cfg hash,
     getCurrentConfig orgID (am w) = Ok (cfg, hash) ∧
     Forall2 (λ receiver cp,
                CP.UID cp = GR.UID receiver ∧
                redacted_settings receiver (CP.Settings cp))
             (GetGrafanaReceiverMap cfg) contactPoints) ∧
  (∀ other : SecretsService,
     (∀ v, populated (encryptionService := other) v =
           populated (encryptionService := encryptionService) v) →
     GetContactPoints (encryptionService := other) orgID w = (Ok contactPoints, w')).
Proof.
  intros Hrun. rewrite GetContactPoints_run in Hrun.
  destruct (getCurrentConfig orgID (am w)) as [[cfg hash]|e] eqn:Hcfg; [|done].
  destruct (GetProvenances orgID "contactpoint" (prov w)) as [provenances|e] eqn:Hprov;
    [|done].
  injection Hrun as <- <-. split.
  - exists cfg, hash. split; [done|].
    apply Forall2_fmap_r, Forall_Forall2_diag, Forall_forall.
    intros receiver _. apply redactedContactPoint_spec.
  - intros other Hsame. rewrite GetContactPoints_run, Hcfg, Hprov.
    do 2 f_equal. apply list_fmap_ext. intros _ receiver _.
    unfold redactedContactPoint. f_equal.
    exact (redactSecureSettings_populated_only other encryptionService _ _ Hsame).
Qed.

(** Decryption failures do not fail a listing: once the document and the
    provenances are read, it succeeds whatever the secrets service answers, with
    one contact point per receiver; a key whose ciphertext does not decrypt
    is as stored and every other key is treated as usual.  The run adds one
    record to the log, the "provenances" record, and none for a failure. *)
Lemma GetContactPoints_survives_decrypt_failures (orgID : Z) (w : World AM PV)
    (cfg : PostableUserConfig.t) (hash : string) (provenances : gmap string string) :
  getCurrentConfig orgID (am w) = Ok (cfg, hash) →
  GetProvenances orgID "contactpoint" (prov w) = Ok provenances →
  ∃ contactPoints,
    GetContactPoints orgID w =
      (Ok contactPoints,
       mkWorld (am w) (prov w)
         (logs w ++ [{| level := Info; msg := "provenances";
                        ctx := [("map", provenances)] |}])) ∧
    Forall2 (λ receiver cp,
               CP.UID cp = GR.UID receiver ∧
               redacted_settings receiver (CP.Settings cp))
            (GetGrafanaReceiverMap cfg) contactPoints.
Proof.
  intros Hcfg Hprov. rewrite GetContactPoints_run, Hcfg, Hprov.
  eexists. split; [done|].
  apply Forall2_fmap_r, Forall_Forall2_diag, Forall_forall.
  intros receiver _. apply redactedContactPoint_spec.
Qed.

End ListingClaims.

(** ** Create *)

Section Creating.
Context {AM PV : Type}.
Context {amStore : AlertingStore AM} {provenanceStore : ProvisioningStore PV}.
Context {encryptionService : SecretsService} {base64 : Base64}.
Context {codec : ConfigCodec} {schema : ChannelSchema}.

(** What a run of [CreateContactPoint] amounts to. *)
Lemma CreateContactPoint_run (orgID : Z) (contactPoint : EmbeddedContactPoint.t)
    (provenance uid : string) (w : World AM PV) :
  CreateContactPoint orgID contactPoint provenance uid w =
  match createPlan orgID contactPoint uid (am w) with
  | Err e => (Err e, w)
  | Ok (created, cmd) =>
      match UpdateAlertmanagerConfiguration cmd (am w) with
      | Err e => (Err e, w)
      | Ok a' =>
          match SetProvenance orgID created provenance (prov w) with
          | Err e => (Err e, w)
          | Ok p' => (Ok (CP.with_Provenance provenance created),
                      mkWorld a' p' (logs w))
          end
      end
  end.
Proof.
  destruct w as [a p l].
  unfold CreateContactPoint, mbind, M_bind, readAM. cbn.
  destruct (createPlan orgID contactPoint uid a) as [[created cmd]|e]; [|done].
  unfold InTransaction, createCommit, mbind, M_bind, writeAM, writePV, mret, M_ret.
  cbn.
  destruct (UpdateAlertmanagerConfiguration cmd a) as [a'|e]; [|done]. cbn.
  destruct (SetProvenance orgID created provenance p) as [p'|e]; done.
Qed.

(** The loop of Create, from any point of its run. *)
Lemma appendToMatching_from (grafanaReceiver : PostableGrafanaReceiver.t)
    (receivers visited : list PostableApiReceiver.t) (receiverFound : bool) :
  ∃ found,
    foldl (λ '(visited, receiverFound) receiver,
        if decide (Group.Name receiver = GR.Name grafanaReceiver) then
          (visited ++ [Group.with_GrafanaManagedReceivers
                         (Group.GrafanaManagedReceivers receiver ++ [grafanaReceiver])
                         receiver], true)
        else (visited ++ [receiver], receiverFound))
      (visited, receiverFound) receivers
    = (visited ++ (appended grafanaReceiver <$> receivers), found) ∧
    (found = true ↔
     receiverFound = true ∨
     Exists (λ g, Group.Name g = GR.Name grafanaReceiver) receivers).
Proof.
  revert visited receiverFound.
  induction receivers as [|g receivers IH]; intros visited receiverFound; simpl.
  - exists receiverFound. rewrite app_nil_r. split; [done|].
    rewrite Exists_nil. tauto.
  - unfold appended at 1.
    destruct (decide (Group.Name g = GR.Name grafanaReceiver)) as [Hg|Hg].
    + destruct (IH (visited ++ [Group.with_GrafanaManagedReceivers
                       (Group.GrafanaManagedReceivers g ++ [grafanaReceiver]) g]) true)
        as (found & Heq & Hfound).
      exists found. rewrite Heq, <- app_assoc. split; [done|].
      rewrite Exists_cons. tauto.
    + destruct (IH (visited ++ [g]) receiverFound) as (found & Heq & Hfound).
      exists found. rewrite Heq, <- app_assoc. split; [done|].
      rewrite Exists_cons. tauto.
Qed.

Lemma appended_other (grafanaReceiver : PostableGrafanaReceiver.t)
    (receivers : list PostableApiReceiver.t) :
  Forall (λ g, Group.Name g ≠ GR.Name grafanaReceiver) receivers →
  appended grafanaReceiver <$> receivers = receivers.
Proof.
  induction 1 as [|g receivers Hg _ IH]; [done|].
  rewrite fmap_cons, IH. unfold appended. by rewrite decide_False.
Qed.

(** Where Create places the new receiver. *)
Lemma addGrafanaReceiver_spec (grafanaReceiver : PostableGrafanaReceiver.t)
    (cfg : PostableUserConfig.t) :
  Cfg.Passthrough (addGrafanaReceiver grafanaReceiver cfg) = Cfg.Passthrough cfg ∧
  (Exists (λ g, Group.Name g = GR.Name grafanaReceiver) (Cfg.Receivers cfg) →
   Cfg.Receivers (addGrafanaReceiver grafanaReceiver cfg) =
     appended grafanaReceiver <$> Cfg.Receivers cfg) ∧
  (Forall (λ g, Group.Name g ≠ GR.Name grafanaReceiver) (Cfg.Receivers cfg) →
   Cfg.Receivers (addGrafanaReceiver grafanaReceiver cfg) =
     Cfg.Receivers cfg ++
       [Group.mk (GR.Name grafanaReceiver) "" [grafanaReceiver]]).
Proof.
  unfold addGrafanaReceiver, appendToMatching.
  destruct (appendToMatching_from grafanaReceiver (Cfg.Receivers cfg) [] false)
    as (found & -> & Hfound). simpl.
  destruct found; simpl; (split; [done|]); split.
  - done.
  - intros Hnone. apply Forall_Exists_neg in Hnone.
    destruct (proj1 Hfound eq_refl) as [?|Hsome]; [done|]. by destruct Hnone.
  - intros Hsome. destruct Hfound as [_ Hfound].
    discriminate Hfound. by right.
  - intros Hnone. by rewrite appended_other.
Qed.

(** What a successful plan of Create went through. *)
Lemma createPlan_Ok (orgID : Z) (contactPoint created : EmbeddedContactPoint.t)
    (uid : string) (a : AM) (cmd : SaveAlertmanagerConfigurationCmd) :
  createPlan orgID contactPoint uid a = Ok (created, cmd) →
  ∃ cfg hash secretKeys encrypted data,
    IsValid contactPoint = Ok () ∧
    getCurrentConfig orgID a = Ok (cfg, hash) ∧
    SecretKeys (CP.Type_ contactPoint) = Ok secretKeys ∧
    encryptSecrets (extractedSecrets secretKeys (CP.Settings contactPoint))
      = Ok encrypted ∧
    created =
      CP.with_UID uid
        (CP.with_Settings (remainingSettings secretKeys (CP.Settings contactPoint))
                          contactPoint) ∧
    Marshal (addGrafanaReceiver (grafanaReceiverOf created encrypted) cfg) = Ok data ∧
    cmd = saveCmd data hash orgID.
Proof.
  unfold createPlan, ExtractSecrtes. intros Hplan.
  destruct (IsValid contactPoint) as [[]|e] eqn:Hvalid; [|done]. simpl in Hplan.
  destruct (getCurrentConfig orgID a) as [[cfg hash]|e] eqn:Hcfg; [|done].
  simpl in Hplan.
  destruct (SecretKeys (CP.Type_ contactPoint)) as [secretKeys|e] eqn:Hkeys; [|done].
  simpl in Hplan.
  destruct (encryptSecrets _) as [encrypted|e] eqn:Henc; [|done]. simpl in Hplan.
  destruct (Marshal _) as [data|e] eqn:Hdata; [|done]. simpl in Hplan.
  injection Hplan as <- <-.
  by exists cfg, hash, secretKeys, encrypted, data.
Qed.

(** C2. Create saves the document and writes the provenance of the new UID
    inside one transaction.  Whenever Create returns an error -- from
    validation, from the save or from the provenance write -- both stores
    are exactly as before; whenever it succeeds, the save and the provenance
    write have both taken effect. *)
Theorem CreateContactPoint_atomic (orgID : Z)
    (contactPoint : EmbeddedContactPoint.t) (provenance uid : string)
    (w : World AM PV) :
  match CreateContactPoint orgID contactPoint provenance uid w with
  | (Err _, w') => w' = w
  | (Ok answer, w') =>
      ∃ created cmd,
        createPlan orgID contactPoint uid (am w) = Ok (created, cmd) ∧
        UpdateAlertmanagerConfiguration cmd (am w) = Ok (am w') ∧
        SetProvenance orgID created provenance (prov w) = Ok (prov w') ∧
        CP.UID created = uid ∧
        answer = CP.with_Provenance provenance created
  end.
Proof.
  rewrite CreateContactPoint_run.
  destruct (createPlan orgID contactPoint uid (am w)) as [[created cmd]|e] eqn:Hplan;
    [|done].
  destruct (UpdateAlertmanagerConfiguration cmd (am w)) as [a'|e] eqn:Hsave; [|done].
  destruct (SetProvenance orgID created provenance (prov w)) as [p'|e] eqn:Hprov;
    [|done].
  exists created, cmd. repeat split; try done.
  apply createPlan_Ok in Hplan as (? & ? & ? & ? & ? & _ & _ & _ & _ & -> & _).
  done.
Qed.

(** C6. After a successful Create the saved document is the one read, with
    the new receiver appended to the members of every group named as the
    contact point; when no group has that name, the groups are as read,
    followed by one new group with that name whose only member is the new
    receiver. *)
Theorem CreateContactPoint_placement (orgID : Z)
    (contactPoint answer : EmbeddedContactPoint.t) (provenance uid : string)
    (w w' : World AM PV) :
  CreateContactPoint orgID contactPoint provenance uid w = (Ok answer, w') →
  ∃ cfg hash grafanaReceiver saved data,
    getCurrentConfig orgID (am w) = Ok (cfg, hash) ∧
    GR.UID grafanaReceiver = uid ∧
    GR.Name grafanaReceiver = CP.Name contactPoint ∧
    Marshal saved = Ok data ∧
    UpdateAlertmanagerConfiguration (saveCmd data hash orgID) (am w) = Ok (am w') ∧
    Cfg.Passthrough saved = Cfg.Passthrough cfg ∧
    (Exists (λ g, Group.Name g = CP.Name contactPoint) (Cfg.Receivers cfg) →
     Cfg.Receivers saved = appended grafanaReceiver <$> Cfg.Receivers cfg) ∧
    (Forall (λ g, Group.Name g ≠ CP.Name contactPoint) (Cfg.Receivers cfg) →
     Cfg.Receivers saved =
       Cfg.Receivers cfg ++ [Group.mk (CP.Name contactPoint) "" [grafanaReceiver]]).
Proof.
  rewrite CreateContactPoint_run. intros Hrun.
  destruct (createPlan orgID contactPoint uid (am w)) as [[created cmd]|e] eqn:Hplan;
    [|done].
  destruct (UpdateAlertmanagerConfiguration cmd (am w)) as [a'|e] eqn:Hsave; [|done].
  destruct (SetProvenance orgID created provenance (prov w)) as [p'|e]; [|done].
  injection Hrun as _ <-.
  apply createPlan_Ok in Hplan
    as (cfg & hash & secretKeys & encrypted & data & _ & Hcfg & _ & _ & -> & Hdata & ->).
  set (created := CP.with_UID uid _) in *.
  destruct (addGrafanaReceiver_spec (grafanaReceiverOf created encrypted) cfg)
    as (Hpass & Hsome & Hnone).
  exists cfg, hash, (grafanaReceiverOf created encrypted),
    (addGrafanaReceiver (grafanaReceiverOf created encrypted) cfg), data.
  split_and!; done.
Qed.

End Creating.

(** ** Delete *)

Section Deleting.
Context {AM PV : Type}.
Context {amStore : AlertingStore AM} {provenanceStore : ProvisioningStore PV}.
Context {codec : ConfigCodec}.

(** What a run of [DeleteContactPoint] amounts to. *)
Lemma DeleteContactPoint_run (orgID : Z) (uid : string) (w : World AM PV) :
  DeleteContactPoint orgID uid w =
  match deletePlan orgID uid (am w) with
  | Err e => (Err e, w)
  | Ok cmd =>
      match DeleteProvenance orgID (CP.with_UID uid CP.empty) (prov w) with
      | Err e => (Err e, w)
      | Ok p' =>
          match UpdateAlertmanagerConfiguration cmd (am w) with
          | Err e => (Err e, w)
          | Ok a' => (Ok (), mkWorld a' p' (logs w))
          end
      end
  end.
Proof.
  destruct w as [a p l].
  unfold DeleteContactPoint, mbind, M_bind, readAM. cbn.
  destruct (deletePlan orgID uid a) as [cmd|e]; [|done].
  unfold InTransaction, deleteCommit, mbind, M_bind, writeAM, writePV. cbn.
  destruct (DeleteProvenance orgID (CP.with_UID uid CP.empty) p) as [p'|e]; [|done].
  cbn. destruct (UpdateAlertmanagerConfiguration cmd a) as [a'|e]; done.
Qed.

(** The inner loop of Delete leaves a list without the UID as it is. *)
Lemma removeMember_absent (uid : string) (index : nat)
    (rest all : list PostableGrafanaReceiver.t) :
  Forall (λ r, GR.UID r ≠ uid) rest → removeMember uid index rest all = all.
Proof.
  intros Hrest. revert index.
  induction Hrest as [|r rest Hr _ IH]; intros index; simpl; [done|].
  by rewrite decide_False.
Qed.

Lemma removeFromGroups_absent (uid : string)
    (receivers : list PostableApiReceiver.t) :
  Forall (λ r, GR.UID r ≠ uid) (receivers ≫= Group.GrafanaManagedReceivers) →
  removeFromGroups uid receivers = receivers.
Proof.
  unfold removeFromGroups.
  induction receivers as [|g receivers IH]; [done|].
  rewrite bind_cons, Forall_app. intros [Hg Hrest].
  rewrite fmap_cons, IH by done. f_equal.
  rewrite removeMember_absent by done. by destruct g.
Qed.

(** The inner loop of Delete, from any point of its run, on a group whose
    members have distinct UIDs: no member of the result carries the UID. *)
Lemma removeMember_removes (uid : string) (index : nat)
    (visited rest : list PostableGrafanaReceiver.t) :
  length visited = index →
  Forall (λ r, GR.UID r ≠ uid) visited →
  NoDup (GR.UID <$> rest) →
  Forall (λ r, GR.UID r ≠ uid) (removeMember uid index rest (visited ++ rest)).
Proof.
  revert index visited.
  induction rest as [|r rest IH]; intros index visited Hlen Hvisited Hdistinct; simpl.
  - by rewrite app_nil_r.
  - rewrite fmap_cons in Hdistinct.
    apply list.NoDup_cons in Hdistinct as [Hr Hdistinct].
    destruct (decide (GR.UID r = uid)) as [Heq|Hne].
    + rewrite take_app_length' by done.
      rewrite drop_app, drop_ge by lia.
      replace (S index - length visited) with 1 by lia. simpl. rewrite drop_0.
      apply list.Forall_app. split; [done|].
      apply list.Forall_forall. intros other Hother Hsame.
      apply Hr. rewrite Heq, <- Hsame. by apply list_elem_of_fmap_2.
    + replace (visited ++ r :: rest) with ((visited ++ [r]) ++ rest)
        by by rewrite <- app_assoc.
      apply IH; [|by apply list.Forall_app; split; [|constructor]|done].
      rewrite length_app. simpl. lia.
Qed.

(** On a document whose groups each have members with distinct UIDs,
    deleting twice is deleting once. *)
Lemma removeFromGroups_idempotent (uid : string)
    (receivers : list PostableApiReceiver.t) :
  Forall (λ g, NoDup (GR.UID <$> Group.GrafanaManagedReceivers g)) receivers →
  removeFromGroups uid (removeFromGroups uid receivers) = removeFromGroups uid receivers.
Proof.
  unfold removeFromGroups.
  induction 1 as [|g receivers Hg _ IH]; [done|].
  rewrite !fmap_cons, IH. f_equal.
  unfold Group.with_GrafanaManagedReceivers at 1 2. simpl.
  rewrite (removeMember_absent uid 0 (removeMember _ _ _ _)); [done|].
  by apply (removeMember_removes uid 0 []).
Qed.

(** C7. Deleting a UID that no member of any group carries is not an error
    of the service, and the document handed to the store is the document
    that was read: when the document marshals and the two store calls of
    the transaction succeed, Delete succeeds, and a store that returns what
    was saved last then holds the same document as before.  Deletion is
    idempotent on the document: where the members of each group have
    distinct UIDs, removing a UID twice gives what removing it once gives. *)
Theorem DeleteContactPoint_absent_uid `{!CodecLaws, !StoreLaws}
    (orgID : Z) (uid : string) (w : World AM PV)
    (cfg : PostableUserConfig.t) (hash : string) :
  getCurrentConfig orgID (am w) = Ok (cfg, hash) →
  (Forall (λ r, GR.UID r ≠ uid) (GetGrafanaReceiverMap cfg) →
   ∀ (data : string) (a' : AM) (p' : PV),
     Marshal cfg = Ok data →
     DeleteProvenance orgID (CP.with_UID uid CP.empty) (prov w) = Ok p' →
     UpdateAlertmanagerConfiguration (saveCmd data hash orgID) (am w) = Ok a' →
     deletePlan orgID uid (am w) = Ok (saveCmd data hash orgID) ∧
     DeleteContactPoint orgID uid w = (Ok (), mkWorld a' p' (logs w)) ∧
     ∃ hash', getCurrentConfig orgID a' = Ok (cfg, hash')) ∧
  (Forall (λ g, NoDup (GR.UID <$> Group.GrafanaManagedReceivers g))
          (Cfg.Receivers cfg) →
   removeFromGroups uid (removeFromGroups uid (Cfg.Receivers cfg))
     = removeFromGroups uid (Cfg.Receivers cfg)).
Proof.
  intros Hcfg. split; [|apply removeFromGroups_idempotent].
  intros Habsent data a' p' Hdata Hprov Hsave.
  assert (Hplan : deletePlan orgID uid (am w) = Ok (saveCmd data hash orgID)).
  { unfold deletePlan. rewrite Hcfg. simpl.
    rewrite removeFromGroups_absent by exact Habsent.
    replace (Cfg.with_Receivers (Cfg.Receivers cfg) cfg) with cfg by by destruct cfg.
    by rewrite Hdata. }
  split_and!.
  - done.
  - by rewrite DeleteContactPoint_run, Hplan, Hprov, Hsave.
  - destruct (GetLatest_Update _ _ _ Hsave) as [hash' Hlatest]. exists hash'.
    unfold getCurrentConfig. simpl in Hlatest. rewrite Hlatest. simpl.
    by rewrite (Deserialize_Marshal _ _ Hdata).
Qed.

End Deleting.

(** ** The unredacted accessor *)

Section Accessor.
Context {AM : Type} {amStore : AlertingStore AM}.
Context {encryptionService : SecretsService} {base64 : Base64}.
Context {codec : ConfigCodec} {schema : ChannelSchema}.

Lemma findUncrypted_absent (uid : string)
    (receivers : list PostableGrafanaReceiver.t) :
  Forall (λ r, GR.UID r ≠ uid) receivers →
  findUncrypted uid receivers = Err (ErrUIDNotFound uid).
Proof.
  induction 1 as [|r receivers Hr _ IH]; simpl; [done|].
  by rewrite decide_True.
Qed.

(** The accessor answers with the first receiver carrying the UID. *)
Lemma findUncrypted_present (uid : string)
    (receivers : list PostableGrafanaReceiver.t) :
  Exists (λ r, GR.UID r = uid) receivers →
  ∃ i receiver,
    receivers !! i = Some receiver ∧
    GR.UID receiver = uid ∧
    (∀ j other, j < i → receivers !! j = Some other → GR.UID other ≠ uid) ∧
    findUncrypted uid receivers = Ok (uncryptedContactPoint receiver).
Proof.
  induction receivers as [|r receivers IH]; intros Hex.
  - by apply Exists_nil in Hex.
  - simpl. destruct (decide (GR.UID r ≠ uid)) as [Hne|Heq].
    + apply Exists_cons in Hex as [Hr|Hex]; [done|].
      destruct (IH Hex) as (i & receiver & Hi & Huid & Hfirst & Hfind).
      exists (S i), receiver. split_and!; try done.
      intros [|j] other Hj Hother; simplify_eq/=; [done|].
      apply (Hfirst j); [lia|done].
    + exists 0, r. split_and!; try done.
      * by destruct (decide (GR.UID r = uid)).
      * intros j other Hj. lia.
Qed.

(** When every receiver carrying the UID is the same receiver, that one is
    the answer. *)
Lemma findUncrypted_only (uid : string) (receiver : PostableGrafanaReceiver.t)
    (receivers : list PostableGrafanaReceiver.t) :
  receiver ∈ receivers →
  GR.UID receiver = uid →
  (∀ other, other ∈ receivers → GR.UID other = uid → other = receiver) →
  findUncrypted uid receivers = Ok (uncryptedContactPoint receiver).
Proof.
  intros Hin Huid Honly.
  assert (Hex : Exists (λ r, GR.UID r = uid) receivers)
    by (apply list.Exists_exists; exists receiver; split; done).
  destruct (findUncrypted_present uid receivers Hex) as (i & r & Hi & Hr & _ & ->).
  f_equal. f_equal. apply Honly; [|done]. by eapply list_elem_of_lookup_2.
Qed.

(** The encryption loop: every key is kept, with its value encrypted. *)
Lemma encryptSecrets_lookup (secrets encrypted : gmap string string) (k : string) :
  encryptSecrets secrets = Ok encrypted →
  match secrets !! k with
  | Some v => ∃ c, encryptValue v = Ok c ∧ encrypted !! k = Some c
  | None => encrypted !! k = None
  end.
Proof.
  unfold encryptSecrets. revert encrypted k.
  apply (map_fold_weak_ind (λ (r : result (gmap string string))
                              (m : gmap string string),
    ∀ encrypted k, r = Ok encrypted →
      match m !! k with
      | Some v => ∃ c, encryptValue v = Ok c ∧ encrypted !! k = Some c
      | None => encrypted !! k = None
      end)).
  - intros encrypted k [= <-]. by rewrite !lookup_empty.
  - intros i x m r Hi IH encrypted k Hstep.
    destruct r as [previous|e]; [|done]. simpl in Hstep.
    destruct (encryptValue x) as [c|e] eqn:Hx; [|done]. simpl in Hstep.
    injection Hstep as <-. specialize (IH previous k eq_refl).
    destruct (decide (i = k)) as [->|Hne].
    + rewrite !lookup_insert_eq. eauto.
    + by rewrite !lookup_insert_ne.
Qed.

Lemma extractedSecrets_lookup (secretKeys : list string) (settings : Settings_t)
    (k : string) :
  k ∈ secretKeys →
  extractedSecrets secretKeys settings !! k
    = Some (Json.MustString (settings !! k)).
Proof.
  unfold extractedSecrets.
  induction secretKeys as [|k' secretKeys IH]; intros Hin.
  - by apply elem_of_nil in Hin.
  - rewrite fmap_cons. simpl. destruct (decide (k' = k)) as [->|Hne].
    + by rewrite lookup_insert_eq.
    + rewrite lookup_insert_ne by done. apply IH.
      apply elem_of_cons in Hin as [?|?]; [congruence|done].
Qed.

(** What was encrypted for storage decrypts to what it was. *)
Lemma decrypteValue_encryptValue `{!SecretsLaws} (value encrypted : string) :
  encryptValue value = Ok encrypted → decrypteValue encrypted = Ok value.
Proof.
  unfold encryptValue, decrypteValue.
  destruct (Encrypt (list_byte_of_string value)) as [data|e] eqn:Henc; [|done].
  intros [= <-]. rewrite DecodeString_EncodeToString. simpl.
  rewrite (Decrypt_Encrypt _ _ Henc). simpl.
  by rewrite string_of_list_byte_of_string.
Qed.

(** The receivers of a document after Create: those it had, and the new
    one. *)
Lemma GetGrafanaReceiverMap_addGrafanaReceiver
    (grafanaReceiver other : PostableGrafanaReceiver.t) (cfg : PostableUserConfig.t) :
  grafanaReceiver ∈ GetGrafanaReceiverMap (addGrafanaReceiver grafanaReceiver cfg) ∧
  (other ∈ GetGrafanaReceiverMap (addGrafanaReceiver grafanaReceiver cfg) →
   other ∈ GetGrafanaReceiverMap cfg ∨ other = grafanaReceiver).
Proof.
  unfold GetGrafanaReceiverMap.
  destruct (addGrafanaReceiver_spec grafanaReceiver cfg) as (_ & Hsome & Hnone).
  destruct (decide (Exists (λ g, Group.Name g = GR.Name grafanaReceiver)
                           (Cfg.Receivers cfg))) as [Hex|Hex].
  - rewrite (Hsome Hex). split.
    + apply list.Exists_exists in Hex as (g & Hg & Hname).
      apply list_elem_of_bind. exists (appended grafanaReceiver g).
      split; [|by apply list_elem_of_fmap_2].
      unfold appended. rewrite decide_True by done. simpl.
      apply elem_of_app. right. by apply list_elem_of_singleton.
    + intros (g' & Hother & Hg')%list_elem_of_bind.
      apply list_elem_of_fmap in Hg' as (g & -> & Hg).
      unfold appended in Hother. case_decide; simpl in Hother.
      * apply elem_of_app in Hother as [Hother|Hother].
        -- left. apply list_elem_of_bind. eauto.
        -- right. by apply list_elem_of_singleton in Hother.
      * left. apply list_elem_of_bind. eauto.
  - apply not_Exists_Forall in Hex; [|intros g; apply _].
    rewrite (Hnone Hex), bind_app.
    change ([Group.mk (GR.Name grafanaReceiver) "" [grafanaReceiver]]
              ≫= Group.GrafanaManagedReceivers) with [grafanaReceiver].
    split.
    + apply elem_of_app. right. by apply list_elem_of_singleton.
    + intros [Hother|Hother]%elem_of_app; [by left|].
      right. by apply list_elem_of_singleton in Hother.
Qed.

End Accessor.

Section AccessorClaims.
Context {AM PV : Type}.
Context {amStore : AlertingStore AM} {provenanceStore : ProvisioningStore PV}.
Context {encryptionService : SecretsService} {base64 : Base64}.
Context {codec : ConfigCodec} {schema : ChannelSchema}.

(** The document read back after a successful save. *)
Lemma getCurrentConfig_after_save `{!CodecLaws, !StoreLaws} (orgID : Z)
    (cfg : PostableUserConfig.t) (data hash : string) (a a' : AM) :
  Marshal cfg = Ok data →
  UpdateAlertmanagerConfiguration (saveCmd data hash orgID) a = Ok a' →
  ∃ hash', getCurrentConfig orgID a' = Ok (cfg, hash').
Proof.
  intros Hdata Hsave.
  destruct (GetLatest_Update _ _ _ Hsave) as [hash' Hlatest]. exists hash'.
  unfold getCurrentConfig. simpl in Hlatest. rewrite Hlatest. simpl.
  by rewrite (Deserialize_Marshal _ _ Hdata).
Qed.

(** C8. Given a UID carried by some receiver of the document, the
    unredacted accessor returns one contact point, built from a receiver
    with that UID, whose settings hold the decrypted plaintext of every
    secure key that decrypts to a non-empty value; given a UID that no
    receiver carries it fails with "contact point with uid '...' not found".
    Hence a secret submitted to Create is what the accessor returns for the
    created UID. *)
Theorem getContactPointUncrypted_spec `{!SecretsLaws, !CodecLaws, !StoreLaws} :
  (∀ (orgID : Z) (uid : string) (a : AM) cfg hash,
     getCurrentConfig orgID a = Ok (cfg, hash) →
     (Exists (λ r, GR.UID r = uid) (GetGrafanaReceiverMap cfg) →
      ∃ receiver contactPoint,
        receiver ∈ GetGrafanaReceiverMap cfg ∧
        GR.UID receiver = uid ∧
        getContactPointUncrypted orgID uid a = Ok contactPoint ∧
        CP.UID contactPoint = uid ∧
        CP.Name contactPoint = GR.Name receiver ∧
        CP.Type_ contactPoint = GR.Type_ receiver ∧
        uncrypted_settings receiver (CP.Settings contactPoint)) ∧
     (Forall (λ r, GR.UID r ≠ uid) (GetGrafanaReceiverMap cfg) →
      getContactPointUncrypted orgID uid a = Err (ErrUIDNotFound uid))) ∧
  (∀ (orgID : Z) (contactPoint answer : EmbeddedContactPoint.t)
     (provenance uid : string) (w w' : World AM PV) cfg hash secretKeys k secret,
     getCurrentConfig orgID (am w) = Ok (cfg, hash) →
     Forall (λ r, GR.UID r ≠ uid) (GetGrafanaReceiverMap cfg) →
     SecretKeys (CP.Type_ contactPoint) = Ok secretKeys →
     k ∈ secretKeys →
     CP.Settings contactPoint !! k = Some (Json.Str secret) →
     secret ≠ "" →
     CreateContactPoint orgID contactPoint provenance uid w = (Ok answer, w') →
     ∃ raw,
       getContactPointUncrypted orgID uid (am w') = Ok raw ∧
       CP.Settings raw !! k = Some (Json.Str secret)).
Proof.
  split.
  - intros orgID uid a cfg hash Hcfg. unfold getContactPointUncrypted.
    rewrite Hcfg. simpl. split.
    + intros Hex.
      destruct (findUncrypted_present uid _ Hex)
        as (i & receiver & Hi & Huid & _ & Hfind).
      exists receiver, (uncryptedContactPoint receiver). split_and!; try done.
      * by eapply list_elem_of_lookup_2.
      * apply decryptSecureSettings_spec.
    + apply findUncrypted_absent.
  - intros orgID contactPoint answer provenance uid w w' cfg hash secretKeys k
      secret Hcfg Hfresh Hkeys Hk Hsecret Hnonempty Hrun.
    rewrite CreateContactPoint_run in Hrun.
    destruct (createPlan orgID contactPoint uid (am w)) as [[created cmd]|e] eqn:Hplan;
      [|done].
    destruct (UpdateAlertmanagerConfiguration cmd (am w)) as [a'|e] eqn:Hsave; [|done].
    destruct (SetProvenance orgID created provenance (prov w)) as [p'|e]; [|done].
    injection Hrun as _ <-. simpl.
    apply createPlan_Ok in Hplan
      as (cfg0 & hash0 & keys0 & encrypted & data & _ & Hcfg0 & Hkeys0 & Henc
          & Hcreated & Hdata & ->).
    rewrite Hcfg in Hcfg0. injection Hcfg0 as <- <-.
    rewrite Hkeys in Hkeys0. injection Hkeys0 as <-.
    set (grafanaReceiver := grafanaReceiverOf created encrypted) in *.
    destruct (getCurrentConfig_after_save _ _ _ _ _ _ Hdata Hsave) as [hash' Hread].
    assert (Huid : GR.UID grafanaReceiver = uid)
      by (unfold grafanaReceiver; by rewrite Hcreated).
    exists (uncryptedContactPoint grafanaReceiver). split.
    + unfold getContactPointUncrypted. rewrite Hread. simpl.
      apply findUncrypted_only; [|done|].
      * apply (GetGrafanaReceiverMap_addGrafanaReceiver grafanaReceiver grafanaReceiver).
      * intros other Hother Hotheruid.
        apply GetGrafanaReceiverMap_addGrafanaReceiver in Hother as [Hold|?]; [|done].
        rewrite list.Forall_forall in Hfresh. by destruct (Hfresh other Hold).
    + simpl. rewrite (decryptSecureSettings_spec grafanaReceiver k). simpl.
      pose proof (encryptSecrets_lookup _ _ k Henc) as Hlookup.
      rewrite (extractedSecrets_lookup _ _ _ Hk), Hsecret in Hlookup.
      destruct Hlookup as (c & Hc & ->).
      rewrite (decrypteValue_encryptValue _ _ Hc).
      by rewrite decide_False.
Qed.

End AccessorClaims.

(** ** Update *)

Section Updating.
Context {AM PV : Type}.
Context {amStore : AlertingStore AM} {provenanceStore : ProvisioningStore PV}.
Context {encryptionService : SecretsService} {base64 : Base64}.
Context {codec : ConfigCodec} {schema : ChannelSchema}.

(** What a run of [UpdateContactPoint] amounts to. *)
Lemma UpdateContactPoint_run (orgID : Z) (contactPoint : EmbeddedContactPoint.t)
    (w : World AM PV) :
  UpdateContactPoint orgID contactPoint w =
  match updatePlan orgID contactPoint (am w) with
  | Err e => (Err e, w)
  | Ok cmd =>
      match UpdateAlertmanagerConfiguration cmd (am w) with
      | Err e => (Err e, w)
      | Ok a' => (Ok (), mkWorld a' (prov w) (logs w))
      end
  end.
Proof.
  unfold UpdateContactPoint, mbind, M_bind, readAM, writeAM.
  by destruct (updatePlan orgID contactPoint (am w)) as [cmd|e].
Qed.

(** The merge loop touches nothing but the settings. *)
Lemma mergeRedacted_fields (secretKeys : list string)
    (rawContactPoint contactPoint : EmbeddedContactPoint.t) :
  let merged := mergeRedacted secretKeys rawContactPoint contactPoint in
  CP.UID merged = CP.UID contactPoint ∧
  CP.Name merged = CP.Name contactPoint ∧
  CP.Type_ merged = CP.Type_ contactPoint ∧
  CP.DisableResolveMessage merged = CP.DisableResolveMessage contactPoint.
Proof.
  unfold mergeRedacted. revert contactPoint.
  induction secretKeys as [|k secretKeys IH]; intros contactPoint; simpl; [done|].
  case_decide; [|apply IH].
  destruct (IH (CP.with_Settings
                  (Json.Set_ k (Json.MustString
                                  (Json.Get k (CP.Settings rawContactPoint)))
                             (CP.Settings contactPoint)) contactPoint))
    as (-> & -> & -> & ->).
  done.
Qed.

(** The merge loop on one key: a secret key submitted as the sentinel holds
    the string the accessor returned for it; any other key is as
    submitted. *)
Lemma mergeRedacted_lookup (secretKeys : list string)
    (rawContactPoint contactPoint : EmbeddedContactPoint.t) (k : string) :
  CP.Settings (mergeRedacted secretKeys rawContactPoint contactPoint) !! k =
  if decide (k ∈ secretKeys ∧
             Json.MustString (CP.Settings contactPoint !! k) = RedactedValue)
  then Some (Json.Str (Json.MustString (CP.Settings rawContactPoint !! k)))
  else CP.Settings contactPoint !! k.
Proof.
  unfold mergeRedacted. revert contactPoint.
  induction secretKeys as [|k' secretKeys IH]; intros contactPoint; cbn [foldl].
  - destruct (decide _) as [[Hin _]|_]; [by apply elem_of_nil in Hin|done].
  - rewrite IH. unfold Json.Get, Json.Set_.
    assert (Hcons : k ∈ k' :: secretKeys ↔ k' = k ∨ k ∈ secretKeys)
      by (rewrite elem_of_cons; split; intros [?|?]; auto).
    destruct (decide (Json.MustString (CP.Settings contactPoint !! k')
                      = RedactedValue)) as [Hred|Hred];
      cbn [CP.Settings CP.with_Settings];
      destruct (decide (k' = k)) as [->|Hne];
      rewrite ?lookup_insert_eq, ?lookup_insert_ne by done;
      repeat (destruct (decide (_ ∧ _)) as [[? ?]|?]); try done;
      exfalso; tauto.
Qed.

(** What a successful merge went through. *)
Lemma mergedReceiver_Ok (orgID : Z) (contactPoint : EmbeddedContactPoint.t)
    (a : AM) (merged : PostableGrafanaReceiver.t) :
  mergedReceiver orgID contactPoint a = Ok merged →
  ∃ rawContactPoint secretKeys encrypted,
    getContactPointUncrypted orgID (CP.UID contactPoint) a = Ok rawContactPoint ∧
    SecretKeys (CP.Type_ contactPoint) = Ok secretKeys ∧
    let validated := mergeRedacted secretKeys rawContactPoint contactPoint in
    IsValid validated = Ok () ∧
    encryptSecrets (extractedSecrets secretKeys (CP.Settings validated))
      = Ok encrypted ∧
    merged =
      grafanaReceiverOf
        (CP.with_Settings (remainingSettings secretKeys (CP.Settings validated))
                          validated)
        encrypted.
Proof.
  unfold mergedReceiver, ExtractSecrtes. intros Hmerged.
  destruct (getContactPointUncrypted orgID (CP.UID contactPoint) a)
    as [rawContactPoint|e] eqn:Hraw; [|done]. simpl in Hmerged.
  destruct (SecretKeys (CP.Type_ contactPoint)) as [secretKeys|e] eqn:Hkeys; [|done].
  simpl in Hmerged.
  destruct (IsValid _) as [[]|e] eqn:Hvalid; [|done]. simpl in Hmerged.
  destruct (mergeRedacted_fields secretKeys rawContactPoint contactPoint)
    as (_ & _ & Htype & _).
  rewrite Htype, Hkeys in Hmerged. simpl in Hmerged.
  destruct (encryptSecrets _) as [encrypted|e] eqn:Henc; [|done]. simpl in Hmerged.
  injection Hmerged as <-.
  by exists rawContactPoint, secretKeys, encrypted.
Qed.

(** What a successful call of the accessor returned. *)
Lemma getContactPointUncrypted_Ok (orgID : Z) (uid : string) (a : AM)
    (rawContactPoint : EmbeddedContactPoint.t) :
  getContactPointUncrypted orgID uid a = Ok rawContactPoint →
  ∃ cfg hash stored,
    getCurrentConfig orgID a = Ok (cfg, hash) ∧
    stored ∈ GetGrafanaReceiverMap cfg ∧
    GR.UID stored = uid ∧
    rawContactPoint = uncryptedContactPoint stored.
Proof.
  unfold getContactPointUncrypted. intros Hraw.
  destruct (getCurrentConfig orgID a) as [[cfg hash]|e]; [|done]. simpl in Hraw.
  exists cfg, hash.
  destruct (decide (Exists (λ r, GR.UID r = uid) (GetGrafanaReceiverMap cfg)))
    as [Hex|Hex].
  - destruct (findUncrypted_present uid _ Hex) as (i & stored & Hi & Huid & _ & Hfind).
    exists stored. split_and!; try done.
    + by eapply list_elem_of_lookup_2.
    + congruence.
  - apply not_Exists_Forall in Hex; [|intros r; apply _].
    rewrite (findUncrypted_absent uid _ Hex) in Hraw. done.
Qed.

(** The inner loop of Update, from any point of its run: [rest] is what is
    left of [all] from position [i] on. *)
Lemma replaceMember_Some (merged : PostableGrafanaReceiver.t) (i : nat)
    (visited rest members : list PostableGrafanaReceiver.t) :
  length visited = i →
  replaceMember merged i rest (visited ++ rest) = Some members →
  ∃ j old,
    rest !! j = Some old ∧
    GR.UID old = GR.UID merged ∧
    (∀ j' other, j' < j → rest !! j' = Some other → GR.UID other ≠ GR.UID merged) ∧
    members = <[i + j := merged]> (visited ++ rest).
Proof.
  revert i visited. induction rest as [|r rest IH]; intros i visited Hi; simpl; [done|].
  destruct (decide (GR.UID r = GR.UID merged)) as [Heq|Hne].
  - intros [= <-]. exists 0, r. split_and!; try done.
    + intros j' other Hj'. lia.
    + by rewrite Nat.add_0_r.
  - replace (visited ++ r :: rest) with ((visited ++ [r]) ++ rest)
      by by rewrite <- app_assoc.
    intros Hrest. apply IH in Hrest as (j & old & Hj & Hold & Hfirst & ->).
    + exists (S j), old. split_and!; try done.
      * intros [|j'] other Hj' Hother; simplify_eq/=; [done|].
        apply (Hfirst j'); [lia|done].
      * f_equal. lia.
    + rewrite length_app. simpl. lia.
Qed.

Lemma replaceMember_None (merged : PostableGrafanaReceiver.t) (i : nat)
    (rest all : list PostableGrafanaReceiver.t) :
  replaceMember merged i rest all = None →
  Forall (λ r, GR.UID r ≠ GR.UID merged) rest.
Proof.
  revert i. induction rest as [|r rest IH]; intros i; simpl; [done|].
  destruct (decide (GR.UID r = GR.UID merged)); [done|].
  intros Hrest. constructor; [done|by eapply IH].
Qed.

(** The outer loop of Update, group by group. *)
Lemma replaceInGroups_Ok (merged : PostableGrafanaReceiver.t) (name : string)
    (receivers updated : list PostableApiReceiver.t) :
  replaceInGroups merged name receivers = Ok updated →
  Forall2 (updated_group merged name) receivers updated.
Proof.
  revert updated. induction receivers as [|g receivers IH]; intros updated; simpl.
  - intros [= <-]. constructor.
  - intros Hrun. apply bind_Ok in Hrun as (g' & Hg & Hrun).
    apply bind_Ok in Hrun as (rest & Hrest & Hrun). injection Hrun as <-.
    constructor; [|by apply IH].
    unfold updated_group. destruct (decide (Group.Name g = name)); [|congruence].
    destruct (replaceMember _ _ _ _) as [members|] eqn:Hmembers; [|done].
    injection Hg as <-. simpl. split_and!; try done.
    apply (replaceMember_Some merged 0 []) in Hmembers
      as (j & old & Hj & Hold & Hfirst & ->); [|done].
    by exists j, old.
Qed.

(** The only error of the outer loop: a group named as the contact point
    has no member with its UID. *)
Lemma replaceInGroups_Err (merged : PostableGrafanaReceiver.t) (name : string)
    (receivers : list PostableApiReceiver.t) (e : error) :
  replaceInGroups merged name receivers = Err e →
  e = ErrUIDNotFound (GR.UID merged) ∧
  Exists (λ g, Group.Name g = name ∧
               Forall (λ r, GR.UID r ≠ GR.UID merged)
                      (Group.GrafanaManagedReceivers g)) receivers.
Proof.
  induction receivers as [|g receivers IH]; simpl; [done|].
  intros Hrun. apply bind_Err in Hrun as [Hg|(g' & Hg & Hrun)].
  - destruct (decide (Group.Name g = name)); [|done].
    destruct (replaceMember _ _ _ _) as [members|] eqn:Hmembers; [done|].
    injection Hg as <-. split; [done|]. apply Exists_cons_hd. split; [done|].
    by eapply replaceMember_None.
  - apply bind_Err in Hrun as [Hrest|(rest & _ & ?)]; [|done].
    destruct (IH Hrest) as [-> Hex]. split; [done|]. by apply Exists_cons_tl.
Qed.

(** No group named as the contact point: the loop changes nothing and
    reports nothing. *)
Lemma replaceInGroups_no_group (merged : PostableGrafanaReceiver.t) (name : string)
    (receivers : list PostableApiReceiver.t) :
  Forall (λ g, Group.Name g ≠ name) receivers →
  replaceInGroups merged name receivers = Ok receivers.
Proof.
  induction 1 as [|g receivers Hg _ IH]; simpl; [done|].
  rewrite decide_False by done. simpl. by rewrite IH.
Qed.

(** What a successful plan of Update went through. *)
Lemma updatePlan_Ok (orgID : Z) (contactPoint : EmbeddedContactPoint.t) (a : AM)
    (cmd : SaveAlertmanagerConfigurationCmd) :
  updatePlan orgID contactPoint a = Ok cmd →
  ∃ merged cfg hash receivers data,
    mergedReceiver orgID contactPoint a = Ok merged ∧
    getCurrentConfig orgID a = Ok (cfg, hash) ∧
    replaceInGroups merged (CP.Name contactPoint) (Cfg.Receivers cfg) = Ok receivers ∧
    Marshal (Cfg.mk (Cfg.Passthrough cfg) receivers) = Ok data ∧
    cmd = saveCmd data hash orgID.
Proof.
  unfold updatePlan. intros Hplan.
  destruct (mergedReceiver orgID contactPoint a) as [merged|e]; [|done].
  simpl in Hplan.
  destruct (getCurrentConfig orgID a) as [[cfg hash]|e]; [|done]. simpl in Hplan.
  destruct (replaceInGroups _ _ _) as [receivers|e] eqn:Hreceivers; [|done].
  simpl in Hplan.
  destruct (Marshal _) as [data|e] eqn:Hdata; [|done]. simpl in Hplan.
  injection Hplan as <-.
  by exists merged, cfg, hash, receivers, data.
Qed.

(** The case Update does not report: when the contact point exists but no
    group has its name, the plan succeeds and is to save the document as
    read. *)
Lemma updatePlan_unknown_group (orgID : Z) (contactPoint : EmbeddedContactPoint.t)
    (a : AM) (merged : PostableGrafanaReceiver.t) (cfg : PostableUserConfig.t)
    (hash data : string) :
  mergedReceiver orgID contactPoint a = Ok merged →
  getCurrentConfig orgID a = Ok (cfg, hash) →
  Forall (λ g, Group.Name g ≠ CP.Name contactPoint) (Cfg.Receivers cfg) →
  Marshal cfg = Ok data →
  updatePlan orgID contactPoint a = Ok (saveCmd data hash orgID).
Proof.
  intros Hmerged Hcfg Hnone Hdata. unfold updatePlan.
  rewrite Hmerged. simpl. rewrite Hcfg. simpl.
  rewrite (replaceInGroups_no_group _ _ _ Hnone). simpl.
  replace (Cfg.with_Receivers (Cfg.Receivers cfg) cfg) with cfg by by destruct cfg.
  by rewrite Hdata.
Qed.

(** The receiver Update writes carries the identity of the contact point. *)
Lemma mergedReceiver_identity (orgID : Z) (contactPoint : EmbeddedContactPoint.t)
    (a : AM) (merged : PostableGrafanaReceiver.t) :
  mergedReceiver orgID contactPoint a = Ok merged →
  GR.UID merged = CP.UID contactPoint ∧ GR.Name merged = CP.Name contactPoint.
Proof.
  intros (raw & secretKeys & encrypted & _ & _ & _ & _ & ->)%mergedReceiver_Ok.
  destruct (mergeRedacted_fields secretKeys raw contactPoint) as (Huid & Hname & _).
  done.
Qed.

(** C3. In a successful Update, every secret key submitted as the sentinel
    is set, before validation and encryption, to the string the unredacted
    accessor returned for that key; the merged contact point is the one
    validated, and the ciphertext written for the key is the encryption of
    that string.  The accessor's string is the plaintext stored so far
    whenever the stored ciphertext decrypts to a non-empty value, so that
    plaintext is what is stored again. *)
Theorem UpdateContactPoint_merges_redacted (orgID : Z)
    (contactPoint : EmbeddedContactPoint.t) (w w' : World AM PV) :
  UpdateContactPoint orgID contactPoint w = (Ok (), w') →
  ∃ merged cfg hash stored rawContactPoint secretKeys,
    mergedReceiver orgID contactPoint (am w) = Ok merged ∧
    getCurrentConfig orgID (am w) = Ok (cfg, hash) ∧
    stored ∈ GetGrafanaReceiverMap cfg ∧
    GR.UID stored = CP.UID contactPoint ∧
    getContactPointUncrypted orgID (CP.UID contactPoint) (am w) = Ok rawContactPoint ∧
    rawContactPoint = uncryptedContactPoint stored ∧
    SecretKeys (CP.Type_ contactPoint) = Ok secretKeys ∧
    IsValid (mergeRedacted secretKeys rawContactPoint contactPoint) = Ok () ∧
    ∀ k,
      k ∈ secretKeys →
      Json.MustString (Json.Get k (CP.Settings contactPoint)) = RedactedValue →
      let previous := Json.MustString (Json.Get k (CP.Settings rawContactPoint)) in
      CP.Settings (mergeRedacted secretKeys rawContactPoint contactPoint) !! k
        = Some (Json.Str previous) ∧
      (∃ c, encryptValue previous = Ok c ∧ GR.SecureSettings merged !! k = Some c) ∧
      (∀ c0 plaintext,
         GR.SecureSettings stored !! k = Some c0 →
         decrypteValue c0 = Ok plaintext →
         plaintext ≠ "" →
         previous = plaintext).
Proof.
  rewrite UpdateContactPoint_run. intros Hrun.
  destruct (updatePlan orgID contactPoint (am w)) as [cmd|e] eqn:Hplan; [|done].
  clear Hrun.
  apply updatePlan_Ok in Hplan as (merged & _ & _ & _ & _ & Hmerged & _).
  pose proof Hmerged as Hparts.
  apply mergedReceiver_Ok in Hparts
    as (raw & secretKeys & encrypted & Hraw & Hkeys & Hvalid & Henc & Hlit).
  pose proof Hraw as Hstored.
  apply getContactPointUncrypted_Ok in Hstored
    as (cfg & hash & stored & Hcfg & Hin & Huid & Hview).
  exists merged, cfg, hash, stored, raw, secretKeys.
  split_and!; try done.
  intros k Hk Hred previous. unfold Json.Get in *. split_and!.
  - rewrite mergeRedacted_lookup. by rewrite decide_True.
  - pose proof (encryptSecrets_lookup _ _ k Henc) as Hlookup.
    rewrite (extractedSecrets_lookup _ _ _ Hk) in Hlookup.
    rewrite mergeRedacted_lookup, decide_True in Hlookup by done.
    destruct Hlookup as (c & Hc & Hsecure). exists c. by rewrite Hlit.
  - intros c0 plaintext Hc0 Hplain Hnonempty. unfold previous.
    rewrite Hview. simpl.
    rewrite (decryptSecureSettings_spec stored k), Hc0, Hplain.
    by rewrite decide_False.
Qed.

(** C10. A successful Update saves the document read with, in every group
    named as the contact point, the first member carrying its UID replaced
    at its own position by the merged receiver: the group keeps its length
    and every other position, and every group with another name is as
    read.  The provenance store is not called: it is as before. *)
Theorem UpdateContactPoint_in_place (orgID : Z)
    (contactPoint : EmbeddedContactPoint.t) (w w' : World AM PV) :
  UpdateContactPoint orgID contactPoint w = (Ok (), w') →
  ∃ merged cfg hash receivers data,
    mergedReceiver orgID contactPoint (am w) = Ok merged ∧
    GR.UID merged = CP.UID contactPoint ∧
    GR.Name merged = CP.Name contactPoint ∧
    getCurrentConfig orgID (am w) = Ok (cfg, hash) ∧
    Forall2 (updated_group merged (CP.Name contactPoint))
            (Cfg.Receivers cfg) receivers ∧
    Marshal (Cfg.mk (Cfg.Passthrough cfg) receivers) = Ok data ∧
    UpdateAlertmanagerConfiguration (saveCmd data hash orgID) (am w) = Ok (am w') ∧
    prov w' = prov w ∧
    logs w' = logs w.
Proof.
  rewrite UpdateContactPoint_run. intros Hrun.
  destruct (updatePlan orgID contactPoint (am w)) as [cmd|e] eqn:Hplan; [|done].
  destruct (UpdateAlertmanagerConfiguration cmd (am w)) as [a'|e] eqn:Hsave; [|done].
  injection Hrun as <-.
  apply updatePlan_Ok in Hplan
    as (merged & cfg & hash & receivers & data & Hmerged & Hcfg & Hloop & Hdata & ->).
  destruct (mergedReceiver_identity _ _ _ _ Hmerged) as [Huid Hname].
  exists merged, cfg, hash, receivers, data. split_and!; try done.
  by apply replaceInGroups_Ok.
Qed.

End Updating.

(** ** The two phases of a mutation *)

Section PhasesGeneral.
Context {AM PV : Type}.
Context {amStore : AlertingStore AM} {provenanceStore : ProvisioningStore PV}.
Context {encryptionService : SecretsService} {base64 : Base64}.
Context {codec : ConfigCodec} {schema : ChannelSchema}.

(** Planning and then committing is the operation itself. *)
Lemma run_prepare (orgID : Z) (m : Mutation) (w : World AM PV) :
  run orgID m w =
  match prepare orgID m (am w) with
  | Err e => (Err e, w)
  | Ok (_, commit) => commit w
  end.
Proof.
  destruct m as [contactPoint provenance uid|contactPoint|uid]; simpl.
  - unfold CreateContactPoint, mbind at 1, M_bind, mbind at 1, M_bind, readAM.
    by destruct (createPlan orgID contactPoint uid (am w)) as [[created cmd]|e].
  - unfold UpdateContactPoint, mbind, M_bind, readAM.
    by destruct (updatePlan orgID contactPoint (am w)) as [cmd|e].
  - unfold DeleteContactPoint, mbind, M_bind, readAM.
    by destruct (deletePlan orgID uid (am w)) as [cmd|e].
Qed.

(** Every mutation saves with the hash returned by its own read. *)
Lemma prepare_hash (orgID : Z) (m : Mutation) (a : AM)
    (cmd : SaveAlertmanagerConfigurationCmd) (commit : M (World AM PV) unit) :
  prepare orgID m a = Ok (cmd, commit) →
  OrgID cmd = orgID ∧
  ∃ cfg, getCurrentConfig orgID a = Ok (cfg, FetchedConfigurationHash cmd).
Proof.
  destruct m as [contactPoint provenance uid|contactPoint|uid]; simpl; intros Hprep.
  - destruct (createPlan orgID contactPoint uid a) as [[created cmd']|e] eqn:Hplan;
      [|done].
    injection Hprep as <- _.
    apply createPlan_Ok in Hplan as (cfg & hash & ? & ? & ? & _ & Hcfg & _ & _ & _ & _ & ->).
    split; [done|]. by exists cfg.
  - destruct (updatePlan orgID contactPoint a) as [cmd'|e] eqn:Hplan; [|done].
    injection Hprep as <- _.
    apply updatePlan_Ok in Hplan as (? & cfg & hash & ? & ? & _ & Hcfg & _ & _ & ->).
    split; [done|]. by exists cfg.
  - destruct (deletePlan orgID uid a) as [cmd'|e] eqn:Hplan; [|done].
    injection Hprep as <- _. unfold deletePlan in Hplan.
    destruct (getCurrentConfig orgID a) as [[cfg hash]|e]; [|done]. simpl in Hplan.
    destruct (Marshal _) as [data|e]; [|done]. injection Hplan as <-.
    split; [done|]. by exists cfg.
Qed.

(** A commit that succeeds has saved its command. *)
Lemma commit_Ok (orgID : Z) (m : Mutation) (a : AM)
    (cmd : SaveAlertmanagerConfigurationCmd) (commit : M (World AM PV) unit)
    (w w' : World AM PV) :
  prepare orgID m a = Ok (cmd, commit) →
  commit w = (Ok (), w') →
  UpdateAlertmanagerConfiguration cmd (am w) = Ok (am w').
Proof.
  destruct w as [a0 p0 l0].
  destruct m as [contactPoint provenance uid|contactPoint|uid]; simpl; intros Hprep.
  - destruct (createPlan orgID contactPoint uid a) as [[created cmd']|e]; [|done].
    injection Hprep as <- <-.
    unfold InTransaction, createCommit, mbind, M_bind, writeAM, writePV, mret, M_ret.
    cbn. destruct (UpdateAlertmanagerConfiguration cmd' a0) as [a'|e]; [|done]. cbn.
    destruct (SetProvenance orgID created provenance p0) as [p'|e]; [|done].
    by intros [= <-].
  - destruct (updatePlan orgID contactPoint a) as [cmd'|e]; [|done].
    injection Hprep as <- <-. unfold writeAM. cbn.
    destruct (UpdateAlertmanagerConfiguration cmd' a0) as [a'|e]; [|done].
    by intros [= <-].
  - destruct (deletePlan orgID uid a) as [cmd'|e]; [|done].
    injection Hprep as <- <-.
    unfold InTransaction, deleteCommit, mbind, M_bind, writeAM, writePV. cbn.
    destruct (DeleteProvenance orgID _ p0) as [p'|e]; [|done]. cbn.
    destruct (UpdateAlertmanagerConfiguration cmd' a0) as [a'|e]; [|done].
    by intros [= <-].
Qed.

(** A commit whose save is refused leaves both stores as they were and
    returns the error of the save, unless the provenance store failed
    before the save was tried. *)
Lemma commit_refused (orgID : Z) (m : Mutation) (a : AM)
    (cmd : SaveAlertmanagerConfigurationCmd) (commit : M (World AM PV) unit)
    (w : World AM PV) (e : error) :
  prepare orgID m a = Ok (cmd, commit) →
  UpdateAlertmanagerConfiguration cmd (am w) = Err e →
  (∀ uid, ∃ p', DeleteProvenance orgID (CP.with_UID uid CP.empty) (prov w) = Ok p') →
  commit w = (Err e, w).
Proof.
  destruct w as [a0 p0 l0].
  destruct m as [contactPoint provenance uid|contactPoint|uid]; simpl;
    intros Hprep Hsave Hdelete.
  - destruct (createPlan orgID contactPoint uid a) as [[created cmd']|e']; [|done].
    injection Hprep as <- <-.
    unfold InTransaction, createCommit, mbind, M_bind, writeAM, writePV, mret, M_ret.
    cbn. by rewrite Hsave.
  - destruct (updatePlan orgID contactPoint a) as [cmd'|e']; [|done].
    injection Hprep as <- <-. unfold writeAM. cbn. by rewrite Hsave.
  - destruct (deletePlan orgID uid a) as [cmd'|e']; [|done].
    injection Hprep as <- <-.
    unfold InTransaction, deleteCommit, mbind, M_bind, writeAM, writePV. cbn.
    destruct (Hdelete uid) as [p' ->]. cbn. by rewrite Hsave.
Qed.

End PhasesGeneral.

(** ** The in-memory collaborators keep their promises *)

Lemma undigits_digits (p : positive) : InMemory.undigits (InMemory.digits p) = Some p.
Proof. induction p as [p IH|p IH|]; simpl; rewrite ?IH; done. Qed.

Lemma InMemory_codec_laws : CodecLaws (codec := InMemory.codec).
Proof.
  constructor. intros cfg data [= <-]. simpl.
  rewrite undigits_digits. simpl. by rewrite decode_encode.
Qed.

Lemma InMemory_secrets_laws :
  SecretsLaws (encryptionService := InMemory.secrets) (base64 := InMemory.encoding).
Proof.
  constructor.
  - intros payload encrypted [= <-]. simpl.
    by rewrite rev_app_distr, rev_involutive.
  - intros data. simpl. by rewrite list_byte_of_string_of_list_byte.
Qed.

Lemma InMemory_store_laws {hash : InMemory.ContentHash} :
  StoreLaws (amStore := InMemory.alerting).
Proof.
  constructor. intros cmd s s'. simpl.
  destruct (s !! OrgID cmd) as [data|]; [|done].
  case_decide; [|done]. intros [= <-].
  rewrite lookup_insert_eq. eauto.
Qed.

(** ** Two writers *)

Section TwoWriters.
Context {hash : InMemory.ContentHash}.
Context {encryptionService : SecretsService} {base64 : Base64}.
Context {codec : ConfigCodec} {schema : ChannelSchema}.
#[local] Existing Instance InMemory.alerting.
#[local] Existing Instance InMemory.provenance.

(** The in-memory store refuses a save whose hash is not the hash of the
    content it holds. *)
Lemma alerting_refuses (cmd : SaveAlertmanagerConfigurationCmd)
    (s : gmap Z string) (data : string) :
  s !! OrgID cmd = Some data →
  InMemory.contentHash data ≠ FetchedConfigurationHash cmd →
  ∃ e, UpdateAlertmanagerConfiguration cmd s = Err e ∧
       kind e = ConcurrentModification.
Proof.
  intros Hdata Hhash. simpl. rewrite Hdata, decide_False by done. eauto.
Qed.

(** C5, as amended.  Two writers plan their mutations on the same state of
    the configuration.  Each will save with the hash returned by its own
    read, here the same hash.  When the first commits and its document has
    another content hash than the one read, the second commit fails with
    ConcurrentModification and changes nothing: the stored document is the
    first writer's, whole. *)
Theorem second_commit_conflicts (orgID : Z) (m1 m2 : Mutation)
    (w w1 : World (gmap Z string) (gmap (Z * string) (gmap string string)))
    (cmd1 cmd2 : SaveAlertmanagerConfigurationCmd)
    (commit1 commit2 : M (World (gmap Z string) (gmap (Z * string) (gmap string string)))
                         unit) :
  prepare orgID m1 (am w) = Ok (cmd1, commit1) →
  prepare orgID m2 (am w) = Ok (cmd2, commit2) →
  commit1 w = (Ok (), w1) →
  InMemory.contentHash (AlertmanagerConfiguration cmd1)
    ≠ FetchedConfigurationHash cmd1 →
  (∃ cfg, getCurrentConfig orgID (am w) = Ok (cfg, FetchedConfigurationHash cmd1)) ∧
  FetchedConfigurationHash cmd2 = FetchedConfigurationHash cmd1 ∧
  (∃ e, commit2 w1 = (Err e, w1) ∧ kind e = ConcurrentModification) ∧
  am w1 !! orgID = Some (AlertmanagerConfiguration cmd1).
Proof.
  intros Hprep1 Hprep2 Hcommit1 Hchanged.
  destruct (prepare_hash _ _ _ _ _ Hprep1) as (Horg1 & cfg1 & Hread1).
  destruct (prepare_hash _ _ _ _ _ Hprep2) as (Horg2 & cfg2 & Hread2).
  assert (Hsame : FetchedConfigurationHash cmd2 = FetchedConfigurationHash cmd1)
    by congruence.
  pose proof (commit_Ok _ _ _ _ _ _ _ Hprep1 Hcommit1) as Hsaved.
  assert (Hstored : am w1 !! orgID = Some (AlertmanagerConfiguration cmd1)).
  { simpl in Hsaved. destruct (am w !! OrgID cmd1) as [data|]; [|done].
    case_decide; [|done]. injection Hsaved as <-.
    by rewrite Horg1, lookup_insert_eq. }
  split_and!; [by exists cfg1|done| |done].
  destruct (alerting_refuses cmd2 (am w1) (AlertmanagerConfiguration cmd1))
    as (e & Hrefused & Hkind); [by rewrite Horg2|congruence|].
  exists e. split; [|done].
  eapply commit_refused; [exact Hprep2|exact Hrefused|].
  intros uid. simpl. eauto.
Qed.

End TwoWriters.

(** ** More on List *)

Section ListingMore.
Context {AM PV : Type}.
Context {amStore : AlertingStore AM} {provenanceStore : ProvisioningStore PV}.
Context {encryptionService : SecretsService} {base64 : Base64}.
Context {codec : ConfigCodec} {schema : ChannelSchema}.

(** A successful List returns one contact point per receiver, in the order
    of the receivers, each with the UID, name, type and resolve flag of its
    receiver and with the provenance recorded for its UID, the empty string
    when none is recorded.  The stores are as before; the log has one more
    record. *)
Theorem GetContactPoints_fields (orgID : Z) (w w' : World AM PV)
    (contactPoints : list EmbeddedContactPoint.t) :
  GetContactPoints orgID w = (Ok contactPoints, w') →
  ∃ cfg hash provenances,
    getCurrentConfig orgID (am w) = Ok (cfg, hash) ∧
    GetProvenances orgID "contactpoint" (prov w) = Ok provenances ∧
    Forall2 (λ receiver cp,
               CP.UID cp = GR.UID receiver ∧
               CP.Name cp = GR.Name receiver ∧
               CP.Type_ cp = GR.Type_ receiver ∧
               CP.DisableResolveMessage cp = GR.DisableResolveMessage receiver ∧
               CP.Provenance cp = default "" (provenances !! GR.UID receiver))
            (GetGrafanaReceiverMap cfg) contactPoints ∧
    am w' = am w ∧
    prov w' = prov w ∧
    length (logs w') = S (length (logs w)).
Proof.
  rewrite GetContactPoints_run. intros Hrun.
  destruct (getCurrentConfig orgID (am w)) as [[cfg hash]|e] eqn:Hcfg; [|done].
  destruct (GetProvenances orgID "contactpoint" (prov w)) as [provenances|e] eqn:Hprov;
    [|done].
  injection Hrun as <- <-. exists cfg, hash, provenances. split_and!; try done.
  - apply Forall2_fmap_r, Forall_Forall2_diag, list.Forall_forall.
    intros receiver _. unfold redactedContactPoint. simpl.
    destruct (provenances !! GR.UID receiver) as [val|]; [|done]. simpl.
    destruct (decide (val ≠ "")) as [Hval|Hval]; [done|]. simpl.
    split_and!; try done. by destruct (decide (val = "")) as [->|].
  - simpl. rewrite length_app. simpl. lia.
Qed.

End ListingMore.

(** ** More on secrets and on Create *)

Section SecretsMore.
Context {encryptionService : SecretsService} {base64 : Base64}.
Context {schema : ChannelSchema}.

(** The encryption loop is all or nothing.  When it succeeds the result has
    exactly the keys it was given, each with the encryption of its value;
    when it fails, the error is the error of encrypting one of the values. *)
Theorem encryptSecrets_all_or_nothing (secrets : gmap string string) :
  match encryptSecrets secrets with
  | Ok encrypted =>
      dom encrypted = dom secrets ∧
      ∀ k v, secrets !! k = Some v →
             ∃ c, encryptValue v = Ok c ∧ encrypted !! k = Some c
  | Err e => ∃ k v, secrets !! k = Some v ∧ encryptValue v = Err e
  end.
Proof.
  unfold encryptSecrets.
  apply (map_fold_weak_ind (λ (r : result (gmap string string))
                              (m : gmap string string),
    match r with
    | Ok encrypted =>
        dom encrypted = dom m ∧
        ∀ k v, m !! k = Some v → ∃ c, encryptValue v = Ok c ∧ encrypted !! k = Some c
    | Err e => ∃ k v, m !! k = Some v ∧ encryptValue v = Err e
    end)).
  - split; [by rewrite !dom_empty_L|]. intros k v Hk. by rewrite lookup_empty in Hk.
  - intros i x m r Hi IH. destruct r as [previous|e]; simpl.
    + destruct (encryptValue x) as [c|e] eqn:Hx; simpl.
      * destruct IH as [Hdom IH]. split; [by rewrite !dom_insert_L, Hdom|].
        intros k v Hk. destruct (decide (i = k)) as [->|Hne].
        -- rewrite lookup_insert_eq in Hk. injection Hk as <-.
           exists c. by rewrite lookup_insert_eq.
        -- rewrite lookup_insert_ne in Hk by done.
           destruct (IH k v Hk) as (c' & Hc' & Hlookup).
           exists c'. by rewrite lookup_insert_ne.
      * exists i, x. by rewrite lookup_insert_eq.
    + destruct IH as (k & v & Hk & Hv). exists k, v. split; [|done].
      rewrite lookup_insert_ne; [done|]. intros ->. congruence.
Qed.

(** What is encrypted for storage decrypts to itself; and [encryptValue]
    fails only when the secrets service does, with its error wrapped. *)
Theorem encryptValue_roundtrip `{!SecretsLaws} (value : string) :
  match encryptValue value with
  | Ok encrypted => decrypteValue encrypted = Ok value
  | Err e =>
      ∃ cause,
        Encrypt (list_byte_of_string value) = Err cause ∧
        e = Wrapf "failed to encrypt secure settings: " cause
  end.
Proof.
  destruct (encryptValue value) as [encrypted|e] eqn:Henc.
  - by apply decrypteValue_encryptValue.
  - unfold encryptValue in Henc.
    destruct (Encrypt (list_byte_of_string value)) as [data|cause]; [done|].
    injection Henc as <-. by exists cause.
Qed.

Lemma remainingSettings_lookup (secretKeys : list string) (settings : Settings_t)
    (k : string) :
  remainingSettings secretKeys settings !! k =
  if decide (k ∈ secretKeys) then None else settings !! k.
Proof.
  unfold remainingSettings, Json.Del.
  induction secretKeys as [|k' secretKeys IH]; cbn [foldr].
  - destruct (decide (k ∈ [])) as [Hin|_]; [by apply elem_of_nil in Hin|done].
  - destruct (decide (k' = k)) as [->|Hne].
    + rewrite lookup_delete_eq.
      destruct (decide (k ∈ k :: secretKeys)) as [_|Hout]; [done|].
      destruct Hout. apply elem_of_cons. by left.
    + rewrite lookup_delete_ne, IH by done. apply decide_ext.
      rewrite elem_of_cons. split; [by right|]. intros [?|?]; [congruence|done].
Qed.

Lemma extractedSecrets_lookup_None (secretKeys : list string) (settings : Settings_t)
    (k : string) :
  k ∉ secretKeys → extractedSecrets secretKeys settings !! k = None.
Proof.
  unfold extractedSecrets. intros Hk. apply not_elem_of_list_to_map_1.
  rewrite <- list_fmap_compose. intros Hin.
  apply list_elem_of_fmap in Hin as (k' & -> & Hin). done.
Qed.

(** The secure settings written for a contact point: a key is present
    exactly when it is a secret key of the type, and it holds the
    encryption of the string the settings held for it. *)
Lemma secureSettings_lookup (secretKeys : list string) (settings : Settings_t)
    (encrypted : gmap string string) (k : string) :
  encryptSecrets (extractedSecrets secretKeys settings) = Ok encrypted →
  if decide (k ∈ secretKeys) then
    ∃ c, encryptValue (Json.MustString (settings !! k)) = Ok c ∧
         encrypted !! k = Some c
  else encrypted !! k = None.
Proof.
  intros Henc. pose proof (encryptSecrets_lookup _ _ k Henc) as Hlookup.
  destruct (decide (k ∈ secretKeys)) as [Hk|Hk].
  - by rewrite (extractedSecrets_lookup _ _ _ Hk) in Hlookup.
  - by rewrite (extractedSecrets_lookup_None _ _ _ Hk) in Hlookup.
Qed.

End SecretsMore.

Section CreatingMore.
Context {AM PV : Type}.
Context {amStore : AlertingStore AM} {provenanceStore : ProvisioningStore PV}.
Context {encryptionService : SecretsService} {base64 : Base64}.
Context {codec : ConfigCodec} {schema : ChannelSchema}.

(** Secrets at rest.  After a successful Create, the receiver placed in the
    saved document and the contact point returned to the caller have the
    same settings: the submitted settings without the secret keys of the
    type.  The receiver's secure settings have exactly the secret keys, each
    holding the encryption of the string submitted for it.  The answer
    carries the drawn UID and the given provenance. *)
Theorem CreateContactPoint_secrets_at_rest (orgID : Z)
    (contactPoint answer : EmbeddedContactPoint.t) (provenance uid : string)
    (w w' : World AM PV) (secretKeys : list string) :
  CreateContactPoint orgID contactPoint provenance uid w = (Ok answer, w') →
  SecretKeys (CP.Type_ contactPoint) = Ok secretKeys →
  ∃ cfg hash grafanaReceiver data,
    getCurrentConfig orgID (am w) = Ok (cfg, hash) ∧
    Marshal (addGrafanaReceiver grafanaReceiver cfg) = Ok data ∧
    UpdateAlertmanagerConfiguration (saveCmd data hash orgID) (am w) = Ok (am w') ∧
    GR.UID grafanaReceiver = uid ∧
    GR.Settings grafanaReceiver = CP.Settings answer ∧
    CP.UID answer = uid ∧
    CP.Provenance answer = provenance ∧
    CP.Name answer = CP.Name contactPoint ∧
    CP.Type_ answer = CP.Type_ contactPoint ∧
    (∀ k, CP.Settings answer !! k =
          if decide (k ∈ secretKeys) then None else CP.Settings contactPoint !! k) ∧
    (∀ k, if decide (k ∈ secretKeys) then
            ∃ c, encryptValue (Json.MustString (CP.Settings contactPoint !! k)) = Ok c ∧
                 GR.SecureSettings grafanaReceiver !! k = Some c
          else GR.SecureSettings grafanaReceiver !! k = None).
Proof.
  rewrite CreateContactPoint_run. intros Hrun Hkeys.
  destruct (createPlan orgID contactPoint uid (am w)) as [[created cmd]|e] eqn:Hplan;
    [|done].
  destruct (UpdateAlertmanagerConfiguration cmd (am w)) as [a'|e] eqn:Hsave; [|done].
  destruct (SetProvenance orgID created provenance (prov w)) as [p'|e]; [|done].
  injection Hrun as <- <-.
  apply createPlan_Ok in Hplan
    as (cfg & hash & keys0 & encrypted & data & _ & Hcfg & Hkeys0 & Henc & -> & Hdata
        & ->).
  rewrite Hkeys in Hkeys0. injection Hkeys0 as <-.
  eexists cfg, hash, _, data. split_and!; try done.
  - intros k. simpl. apply remainingSettings_lookup.
  - intros k. simpl. by apply secureSettings_lookup.
Qed.

(** The identity fields of a listed contact point. *)
Lemma redactedContactPoint_fields (provenances : gmap string string)
    (receiver : PostableGrafanaReceiver.t) :
  CP.UID (redactedContactPoint provenances receiver) = GR.UID receiver ∧
  CP.Name (redactedContactPoint provenances receiver) = GR.Name receiver ∧
  CP.Type_ (redactedContactPoint provenances receiver) = GR.Type_ receiver.
Proof.
  unfold redactedContactPoint. simpl.
  destruct (provenances !! GR.UID receiver) as [val|]; [|done].
  by destruct (decide (val ≠ "")).
Qed.

(** Create, then List.  With a codec, a store and a secrets service that
    round-trip, the listing that follows a successful Create holds a contact
    point with the drawn UID and the submitted name and type; each of its
    secret keys submitted as a non-empty string shows the sentinel, and
    every key that is not secret shows what was submitted. *)
Theorem CreateContactPoint_then_listed `{!SecretsLaws, !CodecLaws, !StoreLaws}
    (orgID : Z) (contactPoint answer : EmbeddedContactPoint.t)
    (provenance uid : string) (w w' : World AM PV) (secretKeys : list string)
    (provenances : gmap string string) :
  CreateContactPoint orgID contactPoint provenance uid w = (Ok answer, w') →
  SecretKeys (CP.Type_ contactPoint) = Ok secretKeys →
  GetProvenances orgID "contactpoint" (prov w') = Ok provenances →
  ∃ contactPoints w'' listed,
    GetContactPoints orgID w' = (Ok contactPoints, w'') ∧
    listed ∈ contactPoints ∧
    CP.UID listed = uid ∧
    CP.Name listed = CP.Name contactPoint ∧
    CP.Type_ listed = CP.Type_ contactPoint ∧
    (∀ k secret,
       k ∈ secretKeys →
       CP.Settings contactPoint !! k = Some (Json.Str secret) →
       secret ≠ "" →
       CP.Settings listed !! k = Some (Json.Str RedactedValue)) ∧
    (∀ k, k ∉ secretKeys → CP.Settings listed !! k = CP.Settings contactPoint !! k).
Proof.
  rewrite CreateContactPoint_run. intros Hrun Hkeys Hprov.
  destruct (createPlan orgID contactPoint uid (am w)) as [[created cmd]|e] eqn:Hplan;
    [|done].
  destruct (UpdateAlertmanagerConfiguration cmd (am w)) as [a'|e] eqn:Hsave; [|done].
  destruct (SetProvenance orgID created provenance (prov w)) as [p'|e]; [|done].
  injection Hrun as _ <-. simpl in Hprov.
  apply createPlan_Ok in Hplan
    as (cfg & hash & keys0 & encrypted & data & _ & Hcfg & Hkeys0 & Henc & Hcreated
        & Hdata & ->).
  rewrite Hkeys in Hkeys0. injection Hkeys0 as <-.
  set (grafanaReceiver := grafanaReceiverOf created encrypted) in *.
  destruct (getCurrentConfig_after_save _ _ _ _ _ _ Hdata Hsave) as [hash' Hread].
  rewrite GetContactPoints_run. simpl. rewrite Hread, Hprov.
  eexists _, _, (redactedContactPoint provenances grafanaReceiver).
  split; [done|].
  destruct (redactedContactPoint_fields provenances grafanaReceiver)
    as (Huid & Hname & Htype).
  destruct (redactedContactPoint_spec provenances grafanaReceiver) as [_ Hsettings].
  split_and!.
  - apply list_elem_of_fmap_2.
    apply (GetGrafanaReceiverMap_addGrafanaReceiver grafanaReceiver grafanaReceiver).
  - rewrite Huid. unfold grafanaReceiver. by rewrite Hcreated.
  - rewrite Hname. unfold grafanaReceiver. by rewrite Hcreated.
  - rewrite Htype. unfold grafanaReceiver. by rewrite Hcreated.
  - intros k secret Hk Hsecret Hnonempty. rewrite (Hsettings k). simpl.
    pose proof (secureSettings_lookup _ _ _ k Henc) as Hsecure.
    rewrite decide_True, Hsecret in Hsecure by done.
    destruct Hsecure as (c & Hc & ->).
    unfold populated. rewrite (decrypteValue_encryptValue _ _ Hc).
    by rewrite bool_decide_eq_true_2.
  - intros k Hk. rewrite (Hsettings k). simpl.
    pose proof (secureSettings_lookup _ _ _ k Henc) as Hsecure.
    rewrite decide_False in Hsecure by done. rewrite Hsecure.
    rewrite Hcreated. simpl. rewrite remainingSettings_lookup.
    by rewrite decide_False.
Qed.

End CreatingMore.

(** ** More on Update *)

Section UpdatingMore.
Context {AM PV : Type}.
Context {amStore : AlertingStore AM} {provenanceStore : ProvisioningStore PV}.
Context {encryptionService : SecretsService} {base64 : Base64}.
Context {codec : ConfigCodec} {schema : ChannelSchema}.

(** A group updated by the loop has the UIDs it had, in their order. *)
Lemma updated_group_UIDs (merged : PostableGrafanaReceiver.t) (name : string)
    (before after : PostableApiReceiver.t) :
  updated_group merged name before after →
  Group.Name after = Group.Name before ∧
  GR.UID <$> Group.GrafanaManagedReceivers after
    = GR.UID <$> Group.GrafanaManagedReceivers before.
Proof.
  unfold updated_group. case_decide as Hname; [|by intros ->].
  intros (Hn & _ & i & old & Hi & Hold & _ & ->). split; [done|].
  rewrite list_fmap_insert, <- Hold. apply list_insert_id.
  by rewrite list_lookup_fmap, Hi.
Qed.

(** Update never adds, removes or moves a receiver or a group: the document
    it saves has the groups that were read, under their names, and in each
    group the same UIDs in the same order. *)
Theorem UpdateContactPoint_keeps_shape (orgID : Z)
    (contactPoint : EmbeddedContactPoint.t) (w w' : World AM PV) :
  UpdateContactPoint orgID contactPoint w = (Ok (), w') →
  ∃ cfg hash receivers data,
    getCurrentConfig orgID (am w) = Ok (cfg, hash) ∧
    Marshal (Cfg.mk (Cfg.Passthrough cfg) receivers) = Ok data ∧
    UpdateAlertmanagerConfiguration (saveCmd data hash orgID) (am w) = Ok (am w') ∧
    Forall2 (λ before after,
               Group.Name after = Group.Name before ∧
               GR.UID <$> Group.GrafanaManagedReceivers after
                 = GR.UID <$> Group.GrafanaManagedReceivers before)
            (Cfg.Receivers cfg) receivers.
Proof.
  rewrite UpdateContactPoint_run. intros Hrun.
  destruct (updatePlan orgID contactPoint (am w)) as [cmd|e] eqn:Hplan; [|done].
  destruct (UpdateAlertmanagerConfiguration cmd (am w)) as [a'|e] eqn:Hsave; [|done].
  injection Hrun as <-.
  apply updatePlan_Ok in Hplan
    as (merged & cfg & hash & receivers & data & _ & Hcfg & Hloop & Hdata & ->).
  exists cfg, hash, receivers, data. split_and!; try done.
  apply replaceInGroups_Ok in Hloop.
  eapply list.Forall2_impl; [exact Hloop|]. intros before after. apply updated_group_UIDs.
Qed.

Lemma replaceMember_absent (merged : PostableGrafanaReceiver.t) (i : nat)
    (rest all : list PostableGrafanaReceiver.t) :
  Forall (λ r, GR.UID r ≠ GR.UID merged) rest →
  replaceMember merged i rest all = None.
Proof.
  intros Hrest. revert i.
  induction Hrest as [|r rest Hr _ IH]; intros i; simpl; [done|].
  by rewrite decide_False.
Qed.

(** A group named as the contact point that lacks the UID makes the loop
    fail, wherever it stands among the groups. *)
Lemma replaceInGroups_missing (merged : PostableGrafanaReceiver.t) (name : string)
    (receivers : list PostableApiReceiver.t) :
  Exists (λ g, Group.Name g = name ∧
               Forall (λ r, GR.UID r ≠ GR.UID merged)
                      (Group.GrafanaManagedReceivers g)) receivers →
  replaceInGroups merged name receivers = Err (ErrUIDNotFound (GR.UID merged)).
Proof.
  induction 1 as [g receivers [Hname Habsent]|g receivers _ IH]; simpl.
  - rewrite decide_True by done. by rewrite replaceMember_absent.
  - destruct (decide (Group.Name g = name)); simpl.
    + destruct (replaceMember _ _ _ _); [|done]. simpl. by rewrite IH.
    + by rewrite IH.
Qed.

(** When Update reports NotFound.  It fails with "contact point with uid
    '...' not found", and saves nothing, when no receiver of the document
    carries the UID, and also when the merge succeeds but a group named as
    the contact point has no member with the UID. *)
Theorem UpdateContactPoint_not_found (orgID : Z)
    (contactPoint : EmbeddedContactPoint.t) (w : World AM PV)
    (cfg : PostableUserConfig.t) (hash : string) :
  getCurrentConfig orgID (am w) = Ok (cfg, hash) →
  (Forall (λ r, GR.UID r ≠ CP.UID contactPoint) (GetGrafanaReceiverMap cfg) ∨
   ((∃ merged, mergedReceiver orgID contactPoint (am w) = Ok merged) ∧
    Exists (λ g, Group.Name g = CP.Name contactPoint ∧
                 Forall (λ r, GR.UID r ≠ CP.UID contactPoint)
                        (Group.GrafanaManagedReceivers g))
           (Cfg.Receivers cfg))) →
  UpdateContactPoint orgID contactPoint w
    = (Err (ErrUIDNotFound (CP.UID contactPoint)), w).
Proof.
  intros Hcfg Hcase. rewrite UpdateContactPoint_run.
  assert (Hplan : updatePlan orgID contactPoint (am w)
                  = Err (ErrUIDNotFound (CP.UID contactPoint))); [|by rewrite Hplan].
  unfold updatePlan. destruct Hcase as [Habsent|[[merged Hmerged] Hmissing]].
  - unfold mergedReceiver, getContactPointUncrypted. rewrite Hcfg. simpl.
    by rewrite (findUncrypted_absent _ _ Habsent).
  - rewrite Hmerged. simpl. rewrite Hcfg. simpl.
    destruct (mergedReceiver_identity _ _ _ _ Hmerged) as [Huid _].
    rewrite <- Huid in Hmissing. rewrite (replaceInGroups_missing _ _ _ Hmissing).
    simpl. by rewrite Huid.
Qed.

(** Where no receiver carries the UID, a loop that succeeds has searched no
    group and changed nothing. *)
Lemma replaceInGroups_untouched (merged : PostableGrafanaReceiver.t) (name : string)
    (receivers updated : list PostableApiReceiver.t) :
  replaceInGroups merged name receivers = Ok updated →
  Forall (λ r, GR.UID r ≠ GR.UID merged)
         (receivers ≫= Group.GrafanaManagedReceivers) →
  updated = receivers.
Proof.
  revert updated. induction receivers as [|g receivers IH]; intros updated.
  - by intros [= <-].
  - intros Hrun Habsent. simpl in Hrun. rewrite bind_cons in Habsent.
    apply list.Forall_app in Habsent as [Hg Hrest].
    apply bind_Ok in Hrun as (g' & Hg' & Hrun).
    apply bind_Ok in Hrun as (rest & Hrest' & Hrun). injection Hrun as <-.
    rewrite (IH rest Hrest' Hrest). f_equal.
    destruct (decide (Group.Name g = name)); [|congruence].
    by rewrite (replaceMember_absent _ _ _ _ Hg) in Hg'.
Qed.

(** On a document whose receivers carry distinct UIDs and which has a group
    named as the contact point, a loop that succeeds has overwritten one
    receiver of the document, the one with the UID, and nothing else. *)
Lemma replaceInGroups_flat (merged : PostableGrafanaReceiver.t) (name : string)
    (receivers updated : list PostableApiReceiver.t) :
  replaceInGroups merged name receivers = Ok updated →
  Exists (λ g, Group.Name g = name) receivers →
  NoDup (GR.UID <$> (receivers ≫= Group.GrafanaManagedReceivers)) →
  ∃ p old,
    (receivers ≫= Group.GrafanaManagedReceivers) !! p = Some old ∧
    GR.UID old = GR.UID merged ∧
    updated ≫= Group.GrafanaManagedReceivers
      = <[p := merged]> (receivers ≫= Group.GrafanaManagedReceivers).
Proof.
  revert updated. induction receivers as [|g receivers IH]; intros updated.
  - intros _ Hex. by apply Exists_nil in Hex.
  - intros Hrun Hex Hdistinct. simpl in Hrun. rewrite bind_cons, fmap_app in Hdistinct.
    apply list.NoDup_app in Hdistinct as (Hg & Hdisjoint & Hrest).
    apply bind_Ok in Hrun as (g' & Hg' & Hrun).
    apply bind_Ok in Hrun as (rest & Hrest' & Hrun). injection Hrun as <-.
    rewrite !bind_cons.
    destruct (decide (Group.Name g = name)) as [Hname|Hname].
    + destruct (replaceMember _ _ _ _) as [members|] eqn:Hmembers; [|done].
      injection Hg' as <-. simpl.
      apply (replaceMember_Some merged 0 []) in Hmembers
        as (i & old & Hi & Hold & _ & ->); [|done]. simpl.
      assert (Habsent : Forall (λ r, GR.UID r ≠ GR.UID merged)
                               (receivers ≫= Group.GrafanaManagedReceivers)).
      { apply list.Forall_forall. intros r Hr Hsame.
        apply (Hdisjoint (GR.UID merged)).
        - rewrite <- Hold. apply list_elem_of_fmap_2. by eapply list_elem_of_lookup_2.
        - rewrite <- Hsame. by apply list_elem_of_fmap_2. }
      rewrite (replaceInGroups_untouched _ _ _ _ Hrest' Habsent).
      exists i, old. split_and!; try done.
      * rewrite lookup_app_l; [done|]. by eapply lookup_lt_Some.
      * rewrite insert_app_l; [done|]. by eapply lookup_lt_Some.
    + injection Hg' as <-.
      apply Exists_cons in Hex as [?|Hex]; [done|].
      destruct (IH rest Hrest' Hex Hrest) as (p & old & Hp & Hold & ->).
      exists (length (Group.GrafanaManagedReceivers g) + p), old. split_and!; try done.
      * rewrite lookup_app_r by lia. rewrite <- Hp. f_equal. lia.
      * by rewrite insert_app_r.
Qed.

(** Update, then look the UID up.  On a document whose receivers carry
    distinct UIDs and which has a group named as the contact point, and with
    a codec, a store and a secrets service that round-trip, the accessor
    returns after a successful Update the submitted contact point with its
    secrets merged: a secret key holds what was stored before when the
    sentinel was submitted for it, and what was submitted otherwise (no key
    at all when that string is empty); every key that is not secret holds
    what was submitted. *)
Theorem UpdateContactPoint_then_uncrypted `{!SecretsLaws, !CodecLaws, !StoreLaws}
    (orgID : Z) (contactPoint : EmbeddedContactPoint.t) (w w' : World AM PV)
    (cfg : PostableUserConfig.t) (hash : string) (secretKeys : list string) :
  UpdateContactPoint orgID contactPoint w = (Ok (), w') →
  getCurrentConfig orgID (am w) = Ok (cfg, hash) →
  NoDup (GR.UID <$> GetGrafanaReceiverMap cfg) →
  Exists (λ g, Group.Name g = CP.Name contactPoint) (Cfg.Receivers cfg) →
  SecretKeys (CP.Type_ contactPoint) = Ok secretKeys →
  ∃ before after,
    getContactPointUncrypted orgID (CP.UID contactPoint) (am w) = Ok before ∧
    getContactPointUncrypted orgID (CP.UID contactPoint) (am w') = Ok after ∧
    CP.UID after = CP.UID contactPoint ∧
    CP.Name after = CP.Name contactPoint ∧
    CP.Type_ after = CP.Type_ contactPoint ∧
    ∀ k,
      CP.Settings after !! k =
      if decide (k ∈ secretKeys) then
        let submitted := Json.MustString (CP.Settings contactPoint !! k) in
        let kept :=
          if decide (submitted = RedactedValue)
          then Json.MustString (CP.Settings before !! k)
          else submitted in
        if decide (kept = "") then None else Some (Json.Str kept)
      else CP.Settings contactPoint !! k.
Proof.
  rewrite UpdateContactPoint_run. intros Hrun Hcfg Hdistinct Hgroup Hkeys.
  destruct (updatePlan orgID contactPoint (am w)) as [cmd|e] eqn:Hplan; [|done].
  destruct (UpdateAlertmanagerConfiguration cmd (am w)) as [a'|e] eqn:Hsave; [|done].
  injection Hrun as <-. simpl.
  apply updatePlan_Ok in Hplan
    as (merged & cfg0 & hash0 & receivers & data & Hmerged & Hcfg0 & Hloop & Hdata & ->).
  rewrite Hcfg in Hcfg0. injection Hcfg0 as <- <-.
  destruct (mergedReceiver_identity _ _ _ _ Hmerged) as [Huid Hname].
  pose proof Hmerged as Hparts.
  apply mergedReceiver_Ok in Hparts
    as (before & keys0 & encrypted & Hbefore & Hkeys0 & _ & Henc & Hlit).
  rewrite Hkeys in Hkeys0. injection Hkeys0 as <-.
  destruct (mergeRedacted_fields secretKeys before contactPoint)
    as (_ & _ & Htype & _).
  destruct (replaceInGroups_flat _ _ _ _ Hloop Hgroup Hdistinct)
    as (p & old & Hp & Hold & Hflat).
  destruct (getCurrentConfig_after_save _ _ _ _ _ _ Hdata Hsave) as [hash' Hread].
  exists before, (uncryptedContactPoint merged). split_and!; try done.
  - unfold getContactPointUncrypted. rewrite Hread. simpl.
    unfold GetGrafanaReceiverMap. simpl. rewrite Hflat.
    apply findUncrypted_only; [|done|].
    + apply list_elem_of_insert. by eapply lookup_lt_Some.
    + intros other Hother Hsame.
      apply list_elem_of_lookup_1 in Hother as [q Hq].
      destruct (decide (p = q)) as [<-|Hne].
      * rewrite list_lookup_insert_eq in Hq by by eapply lookup_lt_Some. congruence.
      * rewrite list_lookup_insert_ne in Hq by done.
        destruct Hne.
        apply (list.NoDup_lookup _ _ _ (GR.UID merged) Hdistinct).
        -- unfold GetGrafanaReceiverMap. by rewrite list_lookup_fmap, Hp, <- Hold.
        -- unfold GetGrafanaReceiverMap. rewrite list_lookup_fmap, Hq. simpl.
           by rewrite Hsame, Huid.
  - simpl. rewrite Hlit. simpl. by rewrite Htype.
  - intros k. simpl. rewrite (decryptSecureSettings_spec merged k), Hlit. simpl.
    pose proof (secureSettings_lookup _ _ _ k Henc) as Hsecure.
    rewrite remainingSettings_lookup.
    rewrite mergeRedacted_lookup in Hsecure |- *.
    destruct (decide (k ∈ secretKeys)) as [Hk|Hk].
    + destruct Hsecure as (c & Hc & ->).
      rewrite (decrypteValue_encryptValue _ _ Hc).
      destruct (decide (Json.MustString (CP.Settings contactPoint !! k) = RedactedValue))
        as [Hred|Hred].
      * by rewrite (decide_True (P := k ∈ secretKeys ∧ _)) by (split; done).
      * by rewrite (decide_False (P := k ∈ secretKeys ∧ _)) by (intros [_ ?]; done).
    + rewrite Hsecure. rewrite decide_False; [done|]. by intros [? _].
Qed.

End UpdatingMore.

(** ** Delete of a contact point that exists *)

Section DeletingMore.
Context {AM PV : Type}.
Context {amStore : AlertingStore AM} {provenanceStore : ProvisioningStore PV}.
Context {encryptionService : SecretsService} {base64 : Base64}.
Context {codec : ConfigCodec} {schema : ChannelSchema}.

(** The inner loop of Delete, from any point of its run. *)
Lemma removeMember_from (uid : string) (index : nat)
    (visited rest : list PostableGrafanaReceiver.t) :
  length visited = index →
  (Forall (λ r, GR.UID r ≠ uid) rest ∧
   removeMember uid index rest (visited ++ rest) = visited ++ rest) ∨
  (∃ l1 r l2,
     rest = l1 ++ r :: l2 ∧
     Forall (λ r, GR.UID r ≠ uid) l1 ∧
     GR.UID r = uid ∧
     removeMember uid index rest (visited ++ rest) = visited ++ l1 ++ l2).
Proof.
  revert index visited.
  induction rest as [|r rest IH]; intros index visited Hlen; simpl.
  - left. by split.
  - destruct (decide (GR.UID r = uid)) as [Heq|Hne].
    + right. exists [], r, rest. split_and!; try done.
      rewrite take_app_length' by done.
      rewrite drop_app, drop_ge by lia.
      replace (S index - length visited) with 1 by lia. simpl. by rewrite drop_0.
    + replace (visited ++ r :: rest) with ((visited ++ [r]) ++ rest)
        by by rewrite <- app_assoc.
      destruct (IH (S index) (visited ++ [r])) as [[Hrest ->]|Hcut].
      * rewrite length_app. simpl. lia.
      * left. split; [by constructor|done].
      * destruct Hcut as (l1 & r' & l2 & -> & Hl1 & Hr' & ->).
        right. exists (r :: l1), r', l2. split_and!; try done.
        -- by constructor.
        -- by rewrite <- !app_assoc.
Qed.

(** The outer loop of Delete, group by group. *)
Lemma removeFromGroups_spec (uid : string) (receivers : list PostableApiReceiver.t) :
  Forall2 (deleted_group uid) receivers (removeFromGroups uid receivers).
Proof.
  unfold removeFromGroups. apply Forall2_fmap_r, Forall_Forall2_diag, list.Forall_forall.
  intros g _. unfold deleted_group. simpl. split_and!; try done.
  destruct (removeMember_from uid 0 [] (Group.GrafanaManagedReceivers g) eq_refl)
    as [[Habsent Hsame]|(l1 & r & l2 & Hsplit & Hl1 & Hr & Hcut)].
  - left. by split.
  - right. by exists l1, r, l2.
Qed.

(** What a successful plan of Delete went through. *)
Lemma deletePlan_Ok (orgID : Z) (uid : string) (a : AM)
    (cmd : SaveAlertmanagerConfigurationCmd) :
  deletePlan orgID uid a = Ok cmd →
  ∃ cfg hash data,
    getCurrentConfig orgID a = Ok (cfg, hash) ∧
    Marshal (Cfg.mk (Cfg.Passthrough cfg) (removeFromGroups uid (Cfg.Receivers cfg)))
      = Ok data ∧
    cmd = saveCmd data hash orgID.
Proof.
  unfold deletePlan. intros Hplan.
  destruct (getCurrentConfig orgID a) as [[cfg hash]|e]; [|done]. simpl in Hplan.
  destruct (Marshal _) as [data|e] eqn:Hdata; [|done]. injection Hplan as <-.
  by exists cfg, hash, data.
Qed.

(** Delete of a UID saves the document read with, in every group, the first
    member carrying the UID cut out and every other member kept in its
    order; groups are neither removed nor renamed, even when emptied.  The
    provenance record of the UID is deleted in the same run. *)
Theorem DeleteContactPoint_cuts_first_match (orgID : Z) (uid : string)
    (w w' : World AM PV) :
  DeleteContactPoint orgID uid w = (Ok (), w') →
  ∃ cfg hash receivers data,
    getCurrentConfig orgID (am w) = Ok (cfg, hash) ∧
    Forall2 (deleted_group uid) (Cfg.Receivers cfg) receivers ∧
    Marshal (Cfg.mk (Cfg.Passthrough cfg) receivers) = Ok data ∧
    UpdateAlertmanagerConfiguration (saveCmd data hash orgID) (am w) = Ok (am w') ∧
    DeleteProvenance orgID (CP.with_UID uid CP.empty) (prov w) = Ok (prov w') ∧
    logs w' = logs w.
Proof.
  rewrite DeleteContactPoint_run. intros Hrun.
  destruct (deletePlan orgID uid (am w)) as [cmd|e] eqn:Hplan; [|done].
  destruct (DeleteProvenance orgID _ (prov w)) as [p'|e] eqn:Hprov; [|done].
  destruct (UpdateAlertmanagerConfiguration cmd (am w)) as [a'|e] eqn:Hsave; [|done].
  injection Hrun as <-.
  apply deletePlan_Ok in Hplan as (cfg & hash & data & Hcfg & Hdata & ->).
  exists cfg, hash, (removeFromGroups uid (Cfg.Receivers cfg)), data.
  split_and!; try done. apply removeFromGroups_spec.
Qed.

(** Delete is all or nothing.  The provenance record is deleted before the
    document is saved; when the save is refused, or anything else fails,
    the error is returned and both stores are as before, the provenance
    record included. *)
Theorem DeleteContactPoint_atomic (orgID : Z) (uid : string) (w : World AM PV) :
  match DeleteContactPoint orgID uid w with
  | (Err _, w') => w' = w
  | (Ok _, w') =>
      ∃ cmd,
        deletePlan orgID uid (am w) = Ok cmd ∧
        DeleteProvenance orgID (CP.with_UID uid CP.empty) (prov w) = Ok (prov w') ∧
        UpdateAlertmanagerConfiguration cmd (am w) = Ok (am w')
  end ∧
  (∀ cmd p' e,
     deletePlan orgID uid (am w) = Ok cmd →
     DeleteProvenance orgID (CP.with_UID uid CP.empty) (prov w) = Ok p' →
     UpdateAlertmanagerConfiguration cmd (am w) = Err e →
     DeleteContactPoint orgID uid w = (Err e, w)).
Proof.
  rewrite DeleteContactPoint_run. split.
  - destruct (deletePlan orgID uid (am w)) as [cmd|e] eqn:Hplan; [|done].
    destruct (DeleteProvenance orgID _ (prov w)) as [p'|e] eqn:Hprov; [|done].
    destruct (UpdateAlertmanagerConfiguration cmd (am w)) as [a'|e] eqn:Hsave; [|done].
    by exists cmd.
  - intros cmd p' e -> -> ->. done.
Qed.

(** The accessor's loop over two stretches of receivers. *)
Lemma findUncrypted_app (uid : string) (l1 l2 : list PostableGrafanaReceiver.t) :
  findUncrypted uid (l1 ++ l2) =
  match findUncrypted uid l1 with
  | Ok contactPoint => Ok contactPoint
  | Err _ => findUncrypted uid l2
  end.
Proof.
  induction l1 as [|r l1 IH]; simpl; [done|].
  by destruct (decide (GR.UID r ≠ uid)).
Qed.

(** Cutting the first match of one UID out of every group does not change
    what the accessor finds for another UID. *)
Lemma findUncrypted_removeFromGroups (uid other : string)
    (receivers : list PostableApiReceiver.t) :
  other ≠ uid →
  findUncrypted other (removeFromGroups uid receivers ≫= Group.GrafanaManagedReceivers)
  = findUncrypted other (receivers ≫= Group.GrafanaManagedReceivers).
Proof.
  intros Hother. unfold removeFromGroups.
  induction receivers as [|g receivers IH]; [done|].
  rewrite fmap_cons, !bind_cons, !findUncrypted_app, IH.
  destruct g as [name passthrough members]. simpl.
  destruct (removeMember_from uid 0 [] members eq_refl)
    as [[_ Hsame]|(l1 & r & l2 & -> & _ & Hr & Hcut)]; simpl in *.
  - by rewrite Hsame.
  - rewrite Hcut, !findUncrypted_app. simpl.
    by rewrite (decide_True (P := GR.UID r ≠ other)) by congruence.
Qed.

(** On groups with distinct UIDs, no receiver is left with the UID. *)
Lemma removeFromGroups_removes (uid : string) (receivers : list PostableApiReceiver.t) :
  distinct_UIDs receivers →
  Forall (λ r, GR.UID r ≠ uid)
         (removeFromGroups uid receivers ≫= Group.GrafanaManagedReceivers).
Proof.
  unfold removeFromGroups.
  induction 1 as [|g receivers Hg _ IH]; [constructor|].
  rewrite fmap_cons, bind_cons. apply list.Forall_app. split; [|done]. simpl.
  by apply (removeMember_removes uid 0 []).
Qed.

(** Delete, then look the UID up: where the members of each group carry
    distinct UIDs, a successful Delete leaves no receiver with the UID, and
    the accessor fails with "contact point with uid '...' not found". *)
Theorem DeleteContactPoint_then_not_found `{!CodecLaws, !StoreLaws}
    (orgID : Z) (uid : string) (w w' : World AM PV)
    (cfg : PostableUserConfig.t) (hash : string) :
  DeleteContactPoint orgID uid w = (Ok (), w') →
  getCurrentConfig orgID (am w) = Ok (cfg, hash) →
  distinct_UIDs (Cfg.Receivers cfg) →
  getContactPointUncrypted orgID uid (am w') = Err (ErrUIDNotFound uid).
Proof.
  rewrite DeleteContactPoint_run. intros Hrun Hcfg Hdistinct.
  destruct (deletePlan orgID uid (am w)) as [cmd|e] eqn:Hplan; [|done].
  destruct (DeleteProvenance orgID _ (prov w)) as [p'|e]; [|done].
  destruct (UpdateAlertmanagerConfiguration cmd (am w)) as [a'|e] eqn:Hsave; [|done].
  injection Hrun as <-. simpl.
  apply deletePlan_Ok in Hplan as (cfg0 & hash0 & data & Hcfg0 & Hdata & ->).
  rewrite Hcfg in Hcfg0. injection Hcfg0 as <- <-.
  destruct (getCurrentConfig_after_save _ _ _ _ _ _ Hdata Hsave) as [hash' Hread].
  unfold getContactPointUncrypted. rewrite Hread. simpl.
  apply findUncrypted_absent. by apply removeFromGroups_removes.
Qed.

(** Delete does not disturb the others: after a successful Delete the
    accessor answers for every other UID what it answered before. *)
Theorem DeleteContactPoint_keeps_others `{!CodecLaws, !StoreLaws}
    (orgID : Z) (uid other : string) (w w' : World AM PV) :
  DeleteContactPoint orgID uid w = (Ok (), w') →
  other ≠ uid →
  getContactPointUncrypted orgID other (am w')
  = getContactPointUncrypted orgID other (am w).
Proof.
  rewrite DeleteContactPoint_run. intros Hrun Hother.
  destruct (deletePlan orgID uid (am w)) as [cmd|e] eqn:Hplan; [|done].
  destruct (DeleteProvenance orgID _ (prov w)) as [p'|e]; [|done].
  destruct (UpdateAlertmanagerConfiguration cmd (am w)) as [a'|e] eqn:Hsave; [|done].
  injection Hrun as <-. simpl.
  apply deletePlan_Ok in Hplan as (cfg & hash & data & Hcfg & Hdata & ->).
  destruct (getCurrentConfig_after_save _ _ _ _ _ _ Hdata Hsave) as [hash' Hread].
  unfold getContactPointUncrypted. rewrite Hread, Hcfg. simpl.
  by apply findUncrypted_removeFromGroups.
Qed.

End DeletingMore.

(** ** An invariant of the document *)

Section Invariant.
Context {AM PV : Type}.
Context {amStore : AlertingStore AM} {provenanceStore : ProvisioningStore PV}.
Context {encryptionService : SecretsService} {base64 : Base64}.
Context {codec : ConfigCodec} {schema : ChannelSchema}.

Lemma appended_distinct (grafanaReceiver : PostableGrafanaReceiver.t)
    (receivers : list PostableApiReceiver.t) :
  Forall (λ r, GR.UID r ≠ GR.UID grafanaReceiver)
         (receivers ≫= Group.GrafanaManagedReceivers) →
  distinct_UIDs receivers →
  distinct_UIDs (appended grafanaReceiver <$> receivers).
Proof.
  unfold distinct_UIDs. intros Hfresh Hdistinct.
  induction Hdistinct as [|g receivers Hg _ IH]; [constructor|].
  rewrite bind_cons in Hfresh. apply list.Forall_app in Hfresh as [Hfresh_g Hfresh].
  rewrite fmap_cons. constructor; [|by apply IH].
  unfold appended. case_decide; [|done]. simpl.
  rewrite fmap_app. apply list.NoDup_app. split_and!; [done| |].
  - intros uid Hin Hnew. apply list_elem_of_singleton in Hnew as ->.
    apply list_elem_of_fmap in Hin as (r & Hsame & Hr).
    rewrite list.Forall_forall in Hfresh_g. by destruct (Hfresh_g r Hr).
  - apply NoDup_singleton.
Qed.

Lemma deleted_group_distinct (uid : string) (before after : PostableApiReceiver.t) :
  deleted_group uid before after →
  NoDup (GR.UID <$> Group.GrafanaManagedReceivers before) →
  NoDup (GR.UID <$> Group.GrafanaManagedReceivers after).
Proof.
  intros (_ & _ & [[_ ->]|(l1 & r & l2 & -> & _ & _ & ->)]); [done|].
  rewrite !fmap_app, fmap_cons. rewrite !list.NoDup_app, list.NoDup_cons.
  intros (Hl1 & Hdisjoint & _ & Hl2). split_and!; [done| |done].
  intros x Hx Hx'. apply (Hdisjoint x Hx). apply elem_of_cons. by right.
Qed.

Lemma groupwise_distinct (step : PostableApiReceiver.t → PostableApiReceiver.t → Prop)
    (befores afters : list PostableApiReceiver.t) :
  Forall2 step befores afters →
  (∀ before after, step before after →
     NoDup (GR.UID <$> Group.GrafanaManagedReceivers before) →
     NoDup (GR.UID <$> Group.GrafanaManagedReceivers after)) →
  distinct_UIDs befores → distinct_UIDs afters.
Proof.
  unfold distinct_UIDs. intros Hloop Hstep.
  induction Hloop as [|before after befores afters Hgroup _ IH]; [constructor|].
  intros [Hbefore Hbefores]%list.Forall_cons. constructor; [by eapply Hstep|by apply IH].
Qed.

(** Every mutation keeps the UIDs of each group distinct: when the members
    of each group of the document read carry distinct UIDs, so do those of
    the document that Create, Update or Delete hands to the store.  Create
    needs the UID it draws to be carried by no receiver yet. *)
Theorem mutations_keep_distinct_UIDs (orgID : Z) (m : Mutation) (a : AM)
    (cmd : SaveAlertmanagerConfigurationCmd) (commit : M (World AM PV) unit)
    (cfg : PostableUserConfig.t) (hash : string) :
  prepare orgID m a = Ok (cmd, commit) →
  getCurrentConfig orgID a = Ok (cfg, hash) →
  distinct_UIDs (Cfg.Receivers cfg) →
  match m with
  | Create _ _ uid => Forall (λ r, GR.UID r ≠ uid) (GetGrafanaReceiverMap cfg)
  | _ => True
  end →
  ∃ saved,
    Marshal saved = Ok (AlertmanagerConfiguration cmd) ∧
    Cfg.Passthrough saved = Cfg.Passthrough cfg ∧
    distinct_UIDs (Cfg.Receivers saved).
Proof.
  destruct m as [contactPoint provenance uid|contactPoint|uid]; simpl;
    intros Hprep Hcfg Hdistinct Hfresh.
  - destruct (createPlan orgID contactPoint uid a) as [[created cmd']|e] eqn:Hplan;
      [|done].
    injection Hprep as <- _.
    apply createPlan_Ok in Hplan
      as (cfg0 & hash0 & keys & encrypted & data & _ & Hcfg0 & _ & _ & Hcreated & Hdata
          & ->).
    rewrite Hcfg in Hcfg0. injection Hcfg0 as <- <-.
    set (grafanaReceiver := grafanaReceiverOf created encrypted) in *.
    assert (Huid : GR.UID grafanaReceiver = uid)
      by (unfold grafanaReceiver; by rewrite Hcreated).
    exists (addGrafanaReceiver grafanaReceiver cfg).
    destruct (addGrafanaReceiver_spec grafanaReceiver cfg) as (Hpass & Hsome & Hnone).
    split_and!; try done.
    destruct (decide (Exists (λ g, Group.Name g = GR.Name grafanaReceiver)
                             (Cfg.Receivers cfg))) as [Hex|Hex].
    + rewrite (Hsome Hex). apply appended_distinct; [|done]. by rewrite Huid.
    + apply not_Exists_Forall in Hex; [|intros g; apply _].
      rewrite (Hnone Hex). apply list.Forall_app. split; [done|].
      constructor; [|constructor]. simpl. apply NoDup_singleton.
  - destruct (updatePlan orgID contactPoint a) as [cmd'|e] eqn:Hplan; [|done].
    injection Hprep as <- _.
    apply updatePlan_Ok in Hplan
      as (merged & cfg0 & hash0 & receivers & data & _ & Hcfg0 & Hloop & Hdata & ->).
    rewrite Hcfg in Hcfg0. injection Hcfg0 as <- <-.
    exists (Cfg.mk (Cfg.Passthrough cfg) receivers). split_and!; try done. simpl.
    apply replaceInGroups_Ok in Hloop.
    eapply groupwise_distinct; [exact Hloop| |done].
    intros before after Hgroup. by apply updated_group_UIDs in Hgroup as [_ ->].
  - destruct (deletePlan orgID uid a) as [cmd'|e] eqn:Hplan; [|done].
    injection Hprep as <- _.
    apply deletePlan_Ok in Hplan as (cfg0 & hash0 & data & Hcfg0 & Hdata & ->).
    rewrite Hcfg in Hcfg0. injection Hcfg0 as <- <-.
    exists (Cfg.mk (Cfg.Passthrough cfg) (removeFromGroups uid (Cfg.Receivers cfg))).
    split_and!; try done. simpl.
    eapply groupwise_distinct;
      [exact (removeFromGroups_spec uid (Cfg.Receivers cfg))| |done].
    intros before after. apply deleted_group_distinct.
Qed.

End Invariant.

(** ** The tag filter *)

Section TagFilterOptions.
Import TagFilter.

(** The options loaded for the select list the loaded terms in their order,
    each labelled by its term, and no option of a selected tag carries a
    count; the option of any other term carries the count loaded for it. *)
Theorem onLoadOptions_selected_uncounted (tags : list string)
    (options : list TermCount) :
  value <$> onLoadOptions tags options = term <$> options ∧
  label <$> onLoadOptions tags options = term <$> options ∧
  Forall (λ o, value o ∈ tags → count o = 0%Z) (onLoadOptions tags options) ∧
  ∀ i option, options !! i = Some option → term option ∉ tags →
              count <$> onLoadOptions tags options !! i = Some (termCount option).
Proof.
  unfold onLoadOptions. split_and!.
  - rewrite <- list_fmap_compose. apply list_fmap_ext.
    intros _ option _. simpl. by destruct (decide _).
  - rewrite <- list_fmap_compose. apply list_fmap_ext.
    intros _ option _. simpl. by destruct (decide _).
  - apply list.Forall_forall. intros o (option & -> & _)%list_elem_of_fmap.
    by destruct (decide (term option ∈ tags)).
  - intros i option Hi Hfree. rewrite list_lookup_fmap, Hi. simpl.
    by rewrite decide_False.
Qed.

(** When every loaded term is a selected tag, the loaded options are the
    initial options of these terms: the component shows the same options
    before and after loading. *)
Theorem onLoadOptions_all_selected (tags : list string) (options : list TermCount) :
  Forall (λ option, term option ∈ tags) options →
  onLoadOptions tags options = currentlySelectedTags (term <$> options).
Proof.
  unfold onLoadOptions, currentlySelectedTags. intros Hselected.
  rewrite <- list_fmap_compose. apply Forall_fmap_ext_1.
  eapply list.Forall_impl; [exact Hselected|].
  intros option Hin. simpl. by rewrite decide_True.
Qed.

(** A change of selection that arrives as [null] throws before the guard
    for it is reached: [onChange] is called only for a list, with the values
    of its tags in their order, every count set to zero; in particular it is
    called with no tag only for the empty list. *)
Theorem onTagChange_null_throws :
  onTagChange None = Threw "TypeError" ∧
  ∀ newTags tags written,
    onTagChange newTags = Changed tags written →
    ∃ selected,
      newTags = Some selected ∧
      tags = value <$> selected ∧
      value <$> written = value <$> selected ∧
      label <$> written = label <$> selected ∧
      Forall (λ tag, count tag = 0%Z) written ∧
      (tags = [] → selected = []).
Proof.
  split; [done|]. intros [selected|] tags written Hcall; [|done].
  injection Hcall as <- <-. exists selected.
  rewrite <- !list_fmap_compose. split_and!; try done.
  - apply list.Forall_forall. by intros tag (? & -> & _)%list_elem_of_fmap.
  - intros Hnone. by apply fmap_nil_inv in Hnone.
Qed.

End TagFilterOptions.

(** ** The properties on the concrete organization *)

Module Examples.
Import Scenario.
#[local] Existing Instance InMemory.codec.
#[local] Existing Instance InMemory.secrets.
#[local] Existing Instance InMemory.encoding.
#[local] Existing Instance InMemory.schema.
#[local] Existing Instance InMemory.provenance.
#[local] Existing Instance plainHash.
#[local] Existing Instance InMemory.alerting.
#[local] Existing Instance InMemory_codec_laws.
#[local] Existing Instance InMemory_secrets_laws.
#[local] Existing Instance InMemory_store_laws.

Lemma GetContactPoints_org1 :
  GetContactPoints 1 org1 = (Ok listed, org1_listed).
Proof. vm_cast_no_check (eq_refl (Ok listed, org1_listed)). Qed.

Lemma CreateContactPoint_org1 :
  CreateContactPoint 1 newcomer "api" "u9" org1 = (Ok newcomer_created, org1_created).
Proof. vm_cast_no_check (eq_refl (Ok newcomer_created, org1_created)). Qed.

Lemma UpdateContactPoint_org1 :
  UpdateContactPoint 1 edit org1 = (Ok (), org1_edited).
Proof. vm_cast_no_check (eq_refl (Ok (), org1_edited)). Qed.

Lemma GetContactPoints_redacts_secrets_witness :
  GetContactPoints 1 org1 = (Ok listed, org1_listed) ∧
  ∃ cfg hash,
    getCurrentConfig 1 (am org1) = Ok (cfg, hash) ∧
    Forall2 (λ receiver cp,
               CP.UID cp = GR.UID receiver ∧
               redacted_settings receiver (CP.Settings cp))
            (GetGrafanaReceiverMap cfg) listed.
Proof.
  split; [exact GetContactPoints_org1|].
  exact (proj1 (GetContactPoints_redacts_secrets 1 org1 org1_listed listed
                  GetContactPoints_org1)).
Defined.

(** C9, on the code.  The password stored for [u2] does not decrypt.  The
    listing is returned all the same, with both contact points and with that
    key left out; but the one record the run adds to the log is the
    "provenances" record written before the loop: the failure is not
    logged. *)
Theorem GetContactPoints_corrupt_secret_not_logged :
  (∃ e, decrypteValue "garbage" = Err e) ∧
  GetContactPoints 1 org1 = (Ok listed, org1_listed) ∧
  logs org1_listed =
    logs org1 ++ [ {| level := Info; msg := "provenances";
                      ctx := [("map", {[ "u1" := "api" ]})] |} ].
Proof.
  split_and!.
  - eexists. vm_compute. reflexivity.
  - exact GetContactPoints_org1.
  - reflexivity.
Qed.

(** Fault injection: with a provenance store whose writes fail, Create
    fails and the document is the one that was there. *)
Lemma CreateContactPoint_provenance_failure :
  createWithBrokenProvenance =
    (Err {| kind := StoreError; message := "provenance store unavailable" |}, org1).
Proof.
  vm_cast_no_check
    (eq_refl (Err (A := EmbeddedContactPoint.t)
                  {| kind := StoreError; message := "provenance store unavailable" |},
              org1)).
Qed.

(** C4, on the code.  [pager] is in the group [ops] and no group is named
    [oncall]; an update of [pager] under the name [oncall] locates no member,
    yet it returns no error and saves the document it read. *)
Theorem UpdateContactPoint_unknown_group_accepted :
  getCurrentConfig 1 (am org1) = Ok (document, stored document) ∧
  Forall (λ g, Group.Name g ≠ CP.Name renamed) (Cfg.Receivers document) ∧
  updatePlan 1 renamed (am org1) = Ok (saveCmd (stored document) (stored document) 1) ∧
  UpdateContactPoint 1 renamed org1 = (Ok (), org1).
Proof.
  split_and!.
  - vm_cast_no_check (eq_refl (Ok (document, stored document))).
  - repeat constructor. discriminate.
  - vm_cast_no_check (eq_refl (Ok (saveCmd (stored document) (stored document) 1))).
  - vm_cast_no_check (eq_refl (Ok (), org1)).
Qed.

(** A group named as the contact point that does not hold the UID ends
    the update with the error, nothing saved. *)
Lemma UpdateContactPoint_missing_member :
  (∃ raw, getContactPointUncrypted 1 "u9" (am org1_created) = Ok raw) ∧
  UpdateContactPoint 1 stranger org1_created
    = (Err (ErrUIDNotFound "u9"), org1_created).
Proof.
  split.
  - eexists. vm_compute. reflexivity.
  - vm_cast_no_check (eq_refl (Err (A := unit) (ErrUIDNotFound "u9"), org1_created)).
Qed.

Lemma getCurrentConfig_org1 :
  getCurrentConfig 1 (am org1) = Ok (document, stored document).
Proof. vm_cast_no_check (eq_refl (Ok (document, stored document))). Qed.

Lemma CreateContactPoint_placement_witness :
  CreateContactPoint 1 newcomer "api" "u9" org1 = (Ok newcomer_created, org1_created) ∧
  ∃ cfg hash grafanaReceiver saved data,
    getCurrentConfig 1 (am org1) = Ok (cfg, hash) ∧
    GR.UID grafanaReceiver = "u9" ∧
    GR.Name grafanaReceiver = CP.Name newcomer ∧
    Marshal saved = Ok data ∧
    UpdateAlertmanagerConfiguration (saveCmd data hash 1) (am org1)
      = Ok (am org1_created) ∧
    Cfg.Passthrough saved = Cfg.Passthrough cfg ∧
    (Exists (λ g, Group.Name g = CP.Name newcomer) (Cfg.Receivers cfg) →
     Cfg.Receivers saved = appended grafanaReceiver <$> Cfg.Receivers cfg) ∧
    (Forall (λ g, Group.Name g ≠ CP.Name newcomer) (Cfg.Receivers cfg) →
     Cfg.Receivers saved =
       Cfg.Receivers cfg ++ [Group.mk (CP.Name newcomer) "" [grafanaReceiver]]).
Proof.
  split; [exact CreateContactPoint_org1|].
  exact (CreateContactPoint_placement 1 newcomer newcomer_created "api" "u9"
           org1 org1_created CreateContactPoint_org1).
Defined.

Lemma DeleteContactPoint_absent_uid_witness :
  Forall (λ r, GR.UID r ≠ "nope") (GetGrafanaReceiverMap document) ∧
  deletePlan 1 "nope" (am org1) = Ok idleCmd ∧
  DeleteContactPoint 1 "nope" org1 = (Ok (), org1) ∧
  (∃ hash', getCurrentConfig 1 (am org1) = Ok (document, hash')) ∧
  removeFromGroups "u1" (removeFromGroups "u1" (Cfg.Receivers document))
    = removeFromGroups "u1" (Cfg.Receivers document).
Proof.
  assert (Habsent : Forall (λ r, GR.UID r ≠ "nope") (GetGrafanaReceiverMap document))
    by (repeat constructor; discriminate).
  destruct (DeleteContactPoint_absent_uid 1 "nope" org1 document (stored document)
              getCurrentConfig_org1) as [Hno_match _].
  destruct (DeleteContactPoint_absent_uid 1 "u1" org1 document (stored document)
              getCurrentConfig_org1) as [_ Htwice].
  split; [exact Habsent|].
  destruct (Hno_match Habsent (stored document) (am org1) (prov org1))
    as (Hplan & Hrun & Hread).
  - vm_cast_no_check (eq_refl (Ok (stored document))).
  - vm_cast_no_check (eq_refl (Ok (prov org1))).
  - vm_cast_no_check (eq_refl (Ok (am org1))).
  - split_and!; [exact Hplan|exact Hrun|exact Hread|].
    apply Htwice. apply Forall_cons; [|apply Forall_nil].
    change (NoDup ["u1"; "u2"]). apply (bool_decide_unpack _). vm_compute. exact I.
Defined.

Lemma UpdateContactPoint_in_place_witness :
  UpdateContactPoint 1 edit org1 = (Ok (), org1_edited) ∧
  ∃ merged cfg hash receivers data,
    mergedReceiver 1 edit (am org1) = Ok merged ∧
    GR.UID merged = CP.UID edit ∧
    GR.Name merged = CP.Name edit ∧
    getCurrentConfig 1 (am org1) = Ok (cfg, hash) ∧
    Forall2 (updated_group merged (CP.Name edit)) (Cfg.Receivers cfg) receivers ∧
    Marshal (Cfg.mk (Cfg.Passthrough cfg) receivers) = Ok data ∧
    UpdateAlertmanagerConfiguration (saveCmd data hash 1) (am org1)
      = Ok (am org1_edited) ∧
    prov org1_edited = prov org1 ∧
    logs org1_edited = logs org1.
Proof.
  split; [exact UpdateContactPoint_org1|].
  exact (UpdateContactPoint_in_place 1 edit org1 org1_edited UpdateContactPoint_org1).
Defined.

Lemma UpdateContactPoint_merges_redacted_witness :
  UpdateContactPoint 1 edit org1 = (Ok (), org1_edited) ∧
  ∃ merged rawContactPoint,
    mergedReceiver 1 edit (am org1) = Ok merged ∧
    getContactPointUncrypted 1 "u1" (am org1) = Ok rawContactPoint ∧
    ∃ c,
      encryptValue (Json.MustString (Json.Get "password" (CP.Settings rawContactPoint)))
        = Ok c ∧
      GR.SecureSettings merged !! "password" = Some c.
Proof.
  split; [exact UpdateContactPoint_org1|].
  destruct (UpdateContactPoint_merges_redacted 1 edit org1 org1_edited
              UpdateContactPoint_org1)
    as (merged & cfg & hash & stored & raw & secretKeys & Hmerged & _ & _ & _ & Hraw
        & _ & Hkeys & _ & Hmerge).
  exists merged, raw. split; [exact Hmerged|]. split; [exact Hraw|].
  injection Hkeys as <-.
  apply (Hmerge "password"); [by left|reflexivity].
Defined.

Lemma getContactPointUncrypted_spec_witness :
  (∃ receiver contactPoint,
     receiver ∈ GetGrafanaReceiverMap document ∧
     GR.UID receiver = "u1" ∧
     getContactPointUncrypted 1 "u1" (am org1) = Ok contactPoint ∧
     CP.UID contactPoint = "u1" ∧
     CP.Name contactPoint = GR.Name receiver ∧
     CP.Type_ contactPoint = GR.Type_ receiver ∧
     uncrypted_settings receiver (CP.Settings contactPoint)) ∧
  getContactPointUncrypted 1 "nope" (am org1) = Err (ErrUIDNotFound "nope") ∧
  (∃ raw,
     getContactPointUncrypted 1 "u9" (am org1_created) = Ok raw ∧
     CP.Settings raw !! "token" = Some (Json.Str "xoxb")).
Proof.
  destruct (getContactPointUncrypted_spec (AM := gmap Z string)
              (PV := gmap (Z * string) (gmap string string)))
    as [Hlookup Hroundtrip].
  destruct (Hlookup 1%Z "u1" (am org1) document (stored document) getCurrentConfig_org1)
    as [Hpresent _].
  destruct (Hlookup 1%Z "nope" (am org1) document (stored document) getCurrentConfig_org1)
    as [_ Habsent].
  split_and!.
  - apply Hpresent. apply Exists_cons_hd. reflexivity.
  - apply Habsent. repeat constructor; discriminate.
  - apply (Hroundtrip 1%Z newcomer newcomer_created "api" "u9" org1 org1_created
             document (stored document) ["token"; "url"] "token" "xoxb").
    + exact getCurrentConfig_org1.
    + repeat constructor; discriminate.
    + reflexivity.
    + by left.
    + vm_compute. reflexivity.
    + discriminate.
    + exact CreateContactPoint_org1.
Defined.

Lemma prepare_idle :
  prepare 1 (Delete "nope") (am org1)
    = Ok (idleCmd, InTransaction (deleteCommit 1 "nope" idleCmd)).
Proof.
  assert (Hplan : deletePlan 1 "nope" (am org1) = Ok idleCmd)
    by (vm_cast_no_check (eq_refl (Ok idleCmd))).
  unfold prepare. rewrite Hplan. reflexivity.
Qed.

(** C5, as first stated, fails.  Two writers delete a UID that no receiver
    carries.  Both read [org1], so both will save with the same hash.  The
    first commit succeeds and writes back the content that was there, which
    leaves the content hash as it was; the second commit succeeds too. *)
Lemma second_commit_accepted_on_same_content :
  ∃ commit,
    prepare 1 (Delete "nope") (am org1) = Ok (idleCmd, commit) ∧
    commit org1 = (Ok (), org1) ∧
    ¬ (∃ e w2, commit org1 = (Err e, w2) ∧ kind e = ConcurrentModification).
Proof.
  exists (InTransaction (deleteCommit 1 "nope" idleCmd)).
  assert (Hcommit : InTransaction (deleteCommit 1 "nope" idleCmd) org1 = (Ok (), org1))
    by (vm_cast_no_check (eq_refl (Ok (), org1))).
  split_and!.
  - exact prepare_idle.
  - exact Hcommit.
  - intros (e & w2 & Hfail & _). rewrite Hcommit in Hfail. discriminate.
Qed.

Lemma second_commit_conflicts_witness :
  ∃ commit1 commit2,
    prepare 1 (Create newcomer "api" "u9") (am org1) = Ok (createCmd, commit1) ∧
    prepare 1 (Update edit) (am org1) = Ok (editCmd, commit2) ∧
    commit1 org1 = (Ok (), org1_created) ∧
    (∃ e, commit2 org1_created = (Err e, org1_created) ∧
          kind e = ConcurrentModification) ∧
    am org1_created !! 1%Z = Some (AlertmanagerConfiguration createCmd).
Proof.
  set (pending := CP.mk "u9" "dev" "slack" {[ "recipient" := Json.Str "#dev" ]} false "").
  set (commit1 := (_ ← InTransaction (createCommit 1 pending "api" createCmd); mret ())
                  : M world unit).
  set (commit2 := writeAM (UpdateAlertmanagerConfiguration editCmd) : M world unit).
  assert (Hprep1 : prepare 1 (Create newcomer "api" "u9") (am org1)
                   = Ok (createCmd, commit1)).
  { assert (Hplan : createPlan 1 newcomer "u9" (am org1) = Ok (pending, createCmd))
      by (vm_cast_no_check (eq_refl (Ok (pending, createCmd)))).
    unfold prepare. rewrite Hplan. reflexivity. }
  assert (Hprep2 : prepare 1 (Update edit) (am org1) = Ok (editCmd, commit2)).
  { assert (Hplan : updatePlan 1 edit (am org1) = Ok editCmd)
      by (vm_cast_no_check (eq_refl (Ok editCmd))).
    unfold prepare. rewrite Hplan. reflexivity. }
  assert (Hcommit1 : commit1 org1 = (Ok (), org1_created))
    by (vm_cast_no_check (eq_refl (Ok (), org1_created))).
  assert (Hchanged : InMemory.contentHash (AlertmanagerConfiguration createCmd)
                     ≠ FetchedConfigurationHash createCmd).
  { apply String.eqb_neq. vm_cast_no_check (eq_refl false). }
  exists commit1, commit2.
  destruct (second_commit_conflicts 1 (Create newcomer "api" "u9") (Update edit)
              org1 org1_created createCmd editCmd commit1 commit2
              Hprep1 Hprep2 Hcommit1 Hchanged)
    as (_ & _ & Hrefused & Hstored).
  split_and!; [exact Hprep1|exact Hprep2|exact Hcommit1|exact Hrefused|exact Hstored].
Defined.

(** ** Further runs on the organization *)

Lemma DeleteContactPoint_org1 :
  DeleteContactPoint 1 "u1" org1 = (Ok (), org1_deleted).
Proof. vm_cast_no_check (eq_refl (Ok (), org1_deleted)). Qed.

Lemma getCurrentConfig_org1_created :
  getCurrentConfig 1 (am org1_created) = Ok (document_created, stored document_created).
Proof. vm_cast_no_check (eq_refl (Ok (document_created, stored document_created))). Qed.

Lemma distinct_UIDs_document : distinct_UIDs (Cfg.Receivers document).
Proof.
  apply Forall_cons; [|apply Forall_nil].
  change (NoDup ["u1"; "u2"]). apply (bool_decide_unpack _). vm_compute. exact I.
Qed.

Lemma GetContactPoints_fields_witness :
  GetContactPoints 1 org1 = (Ok listed, org1_listed) ∧
  ∃ cfg hash provenances,
    getCurrentConfig 1 (am org1) = Ok (cfg, hash) ∧
    GetProvenances 1 "contactpoint" (prov org1) = Ok provenances ∧
    Forall2 (λ receiver cp,
               CP.UID cp = GR.UID receiver ∧
               CP.Name cp = GR.Name receiver ∧
               CP.Type_ cp = GR.Type_ receiver ∧
               CP.DisableResolveMessage cp = GR.DisableResolveMessage receiver ∧
               CP.Provenance cp = default "" (provenances !! GR.UID receiver))
            (GetGrafanaReceiverMap cfg) listed ∧
    am org1_listed = am org1 ∧
    prov org1_listed = prov org1 ∧
    length (logs org1_listed) = S (length (logs org1)).
Proof.
  split; [exact GetContactPoints_org1|].
  exact (GetContactPoints_fields 1 org1 org1_listed listed GetContactPoints_org1).
Defined.

Lemma encryptValue_roundtrip_witness :
  encryptValue "s3cr3t" = Ok (ciphertext "s3cr3t") ∧
  decrypteValue (ciphertext "s3cr3t") = Ok "s3cr3t".
Proof.
  assert (Hencrypted : encryptValue "s3cr3t" = Ok (ciphertext "s3cr3t"))
    by (vm_cast_no_check (eq_refl (Ok (ciphertext "s3cr3t")))).
  split; [exact Hencrypted|].
  pose proof (encryptValue_roundtrip "s3cr3t") as Hback.
  rewrite Hencrypted in Hback. exact Hback.
Defined.

Lemma CreateContactPoint_secrets_at_rest_witness :
  CreateContactPoint 1 newcomer "api" "u9" org1 = (Ok newcomer_created, org1_created) ∧
  ∃ grafanaReceiver c,
    GR.UID grafanaReceiver = "u9" ∧
    GR.Settings grafanaReceiver = CP.Settings newcomer_created ∧
    CP.Settings newcomer_created !! "token" = None ∧
    CP.Settings newcomer_created !! "recipient" = Some (Json.Str "#dev") ∧
    encryptValue "xoxb" = Ok c ∧
    GR.SecureSettings grafanaReceiver !! "token" = Some c ∧
    GR.SecureSettings grafanaReceiver !! "recipient" = None.
Proof.
  split; [exact CreateContactPoint_org1|].
  destruct (CreateContactPoint_secrets_at_rest 1 newcomer newcomer_created "api" "u9"
              org1 org1_created ["token"; "url"] CreateContactPoint_org1 eq_refl)
    as (cfg & hash & grafanaReceiver & data & _ & _ & _ & Huid & Hsettings & _ & _ & _
        & _ & Hclear & Hsecure).
  destruct (Hsecure "token") as (c & Hc & Htoken).
  exists grafanaReceiver, c.
  split_and!; [exact Huid|exact Hsettings|exact (Hclear "token")
              |exact (Hclear "recipient")|exact Hc|exact Htoken
              |exact (Hsecure "recipient")].
Defined.

Lemma CreateContactPoint_then_listed_witness :
  CreateContactPoint 1 newcomer "api" "u9" org1 = (Ok newcomer_created, org1_created) ∧
  ∃ contactPoints w'' shown,
    GetContactPoints 1 org1_created = (Ok contactPoints, w'') ∧
    shown ∈ contactPoints ∧
    CP.UID shown = "u9" ∧
    CP.Name shown = "dev" ∧
    CP.Type_ shown = "slack" ∧
    CP.Settings shown !! "token" = Some (Json.Str "[REDACTED]") ∧
    CP.Settings shown !! "recipient" = Some (Json.Str "#dev").
Proof.
  split; [exact CreateContactPoint_org1|].
  destruct (CreateContactPoint_then_listed 1 newcomer newcomer_created "api" "u9"
              org1 org1_created ["token"; "url"] {[ "u1" := "api"; "u9" := "api" ]}
              CreateContactPoint_org1 eq_refl eq_refl)
    as (contactPoints & w'' & shown & Hlisting & Hin & Huid & Hname & Htype
        & Hsecret & Hclear).
  exists contactPoints, w'', shown.
  split_and!; [exact Hlisting|exact Hin|exact Huid|exact Hname|exact Htype| |].
  - apply (Hsecret "token" "xoxb"); [by left|reflexivity|discriminate].
  - rewrite (Hclear "recipient"); [reflexivity|].
    intros Hin'. apply (bool_decide_pack _) in Hin'. vm_compute in Hin'. exact Hin'.
Defined.

Lemma UpdateContactPoint_keeps_shape_witness :
  UpdateContactPoint 1 edit org1 = (Ok (), org1_edited) ∧
  ∃ cfg hash receivers data,
    getCurrentConfig 1 (am org1) = Ok (cfg, hash) ∧
    Marshal (Cfg.mk (Cfg.Passthrough cfg) receivers) = Ok data ∧
    UpdateAlertmanagerConfiguration (saveCmd data hash 1) (am org1)
      = Ok (am org1_edited) ∧
    Forall2 (λ before after,
               Group.Name after = Group.Name before ∧
               GR.UID <$> Group.GrafanaManagedReceivers after
                 = GR.UID <$> Group.GrafanaManagedReceivers before)
            (Cfg.Receivers cfg) receivers.
Proof.
  split; [exact UpdateContactPoint_org1|].
  exact (UpdateContactPoint_keeps_shape 1 edit org1 org1_edited UpdateContactPoint_org1).
Defined.

Lemma UpdateContactPoint_not_found_witness :
  UpdateContactPoint 1 stranger org1 = (Err (ErrUIDNotFound "u9"), org1) ∧
  UpdateContactPoint 1 stranger org1_created
    = (Err (ErrUIDNotFound "u9"), org1_created).
Proof.
  split.
  - apply (UpdateContactPoint_not_found 1 stranger org1 document (stored document)
             getCurrentConfig_org1).
    left. repeat constructor; discriminate.
  - apply (UpdateContactPoint_not_found 1 stranger org1_created document_created
             (stored document_created) getCurrentConfig_org1_created).
    right. split.
    + eexists. vm_compute. reflexivity.
    + apply Exists_cons_hd. split; [reflexivity|].
      repeat constructor; discriminate.
Defined.

Lemma UpdateContactPoint_then_uncrypted_witness :
  UpdateContactPoint 1 edit org1 = (Ok (), org1_edited) ∧
  getContactPointUncrypted 1 "u1" (am org1) = Ok pager_uncrypted ∧
  ∃ after,
    getContactPointUncrypted 1 "u1" (am org1_edited) = Ok after ∧
    CP.Name after = "ops" ∧
    CP.Type_ after = "webhook" ∧
    CP.Settings after !! "password" = Some (Json.Str "s3cr3t") ∧
    CP.Settings after !! "url" = Some (Json.Str "http://pager2").
Proof.
  assert (Hraw : getContactPointUncrypted 1 "u1" (am org1) = Ok pager_uncrypted)
    by (vm_cast_no_check (eq_refl (Ok pager_uncrypted))).
  split; [exact UpdateContactPoint_org1|]. split; [exact Hraw|].
  destruct (UpdateContactPoint_then_uncrypted 1 edit org1 org1_edited document
              (stored document) ["password"]
              UpdateContactPoint_org1 getCurrentConfig_org1)
    as (before & after & Hbefore & Hafter & _ & Hname & Htype & Hsettings).
  - change (NoDup ["u1"; "u2"]). apply (bool_decide_unpack _). vm_compute. exact I.
  - apply Exists_cons_hd. reflexivity.
  - reflexivity.
  - change (CP.UID edit) with "u1" in Hbefore, Hafter.
    rewrite Hraw in Hbefore. injection Hbefore as <-.
    exists after.
    split_and!; [exact Hafter|exact Hname|exact Htype| |].
    + rewrite (Hsettings "password"). reflexivity.
    + rewrite (Hsettings "url"). reflexivity.
Defined.

Lemma DeleteContactPoint_cuts_first_match_witness :
  DeleteContactPoint 1 "u1" org1 = (Ok (), org1_deleted) ∧
  ∃ cfg hash receivers data,
    getCurrentConfig 1 (am org1) = Ok (cfg, hash) ∧
    Forall2 (deleted_group "u1") (Cfg.Receivers cfg) receivers ∧
    Marshal (Cfg.mk (Cfg.Passthrough cfg) receivers) = Ok data ∧
    UpdateAlertmanagerConfiguration (saveCmd data hash 1) (am org1)
      = Ok (am org1_deleted) ∧
    DeleteProvenance 1 (CP.with_UID "u1" CP.empty) (prov org1) = Ok (prov org1_deleted) ∧
    logs org1_deleted = logs org1.
Proof.
  split; [exact DeleteContactPoint_org1|].
  exact (DeleteContactPoint_cuts_first_match 1 "u1" org1 org1_deleted
           DeleteContactPoint_org1).
Defined.

Lemma DeleteContactPoint_then_not_found_witness :
  DeleteContactPoint 1 "u1" org1 = (Ok (), org1_deleted) ∧
  getContactPointUncrypted 1 "u1" (am org1_deleted) = Err (ErrUIDNotFound "u1").
Proof.
  split; [exact DeleteContactPoint_org1|].
  exact (DeleteContactPoint_then_not_found 1 "u1" org1 org1_deleted document
           (stored document) DeleteContactPoint_org1 getCurrentConfig_org1
           distinct_UIDs_document).
Defined.

Lemma DeleteContactPoint_keeps_others_witness :
  DeleteContactPoint 1 "u1" org1 = (Ok (), org1_deleted) ∧
  getContactPointUncrypted 1 "u2" (am org1_deleted)
  = getContactPointUncrypted 1 "u2" (am org1).
Proof.
  split; [exact DeleteContactPoint_org1|].
  apply (DeleteContactPoint_keeps_others 1 "u1" "u2" org1 org1_deleted
           DeleteContactPoint_org1).
  discriminate.
Defined.

Lemma mutations_keep_distinct_UIDs_witness :
  ∃ commit saved,
    prepare 1 (Create newcomer "api" "u9") (am org1) = Ok (createCmd, commit) ∧
    Marshal saved = Ok (AlertmanagerConfiguration createCmd) ∧
    Cfg.Passthrough saved = "route" ∧
    distinct_UIDs (Cfg.Receivers saved).
Proof.
  set (pending := CP.mk "u9" "dev" "slack" {[ "recipient" := Json.Str "#dev" ]} false "").
  set (commit := (_ ← InTransaction (createCommit 1 pending "api" createCmd); mret ())
                 : M world unit).
  assert (Hprep : prepare 1 (Create newcomer "api" "u9") (am org1)
                  = Ok (createCmd, commit)).
  { assert (Hplan : createPlan 1 newcomer "u9" (am org1) = Ok (pending, createCmd))
      by (vm_cast_no_check (eq_refl (Ok (pending, createCmd)))).
    unfold prepare. rewrite Hplan. reflexivity. }
  destruct (mutations_keep_distinct_UIDs 1 (Create newcomer "api" "u9") (am org1)
              createCmd commit document (stored document)
              Hprep getCurrentConfig_org1 distinct_UIDs_document)
    as (saved & Hsaved & Hpass & Hdistinct).
  - repeat constructor; discriminate.
  - exists commit, saved. split_and!; [exact Hprep|exact Hsaved|exact Hpass|exact Hdistinct].
Defined.

(** Two selected tags, loaded back with their counts. *)
Lemma onLoadOptions_all_selected_witness :
  TagFilter.onLoadOptions ["prod"; "db"]
    [TagFilter.mkTermCount "db" 3; TagFilter.mkTermCount "prod" 7]
  = TagFilter.currentlySelectedTags ["db"; "prod"].
Proof.
  apply (onLoadOptions_all_selected ["prod"; "db"]
           [TagFilter.mkTermCount "db" 3; TagFilter.mkTermCount "prod" 7]).
  apply Forall_cons; [|apply Forall_cons; [|apply Forall_nil]].
  - apply (bool_decide_unpack _). vm_compute. exact I.
  - apply (bool_decide_unpack _). vm_compute. exact I.
Defined.

End Examples.
